(** * Parking occupancy and vehicle counting: a verification development

    Shallow embedding of [detection/parking_detection.py] and
    [detection/vehicle_counting.py].

    Conventions of the embedding:
    - Python integers are [Z]; [//] by a positive constant is [Z.div] (floor).
    - A colour frame is its shape, its pixel contents and the list of drawing
      calls applied to it so far ([overlay]); every [cv2]/[cvzone] drawing call
      appends one [DrawOp].  Font face and font scale are the same constants at
      every call site and are left out of the operations.
    - The processed (binary) image of the occupancy classifier is a list of
      rows of pixel values; slicing follows Python's slice rules. *)

From Stdlib Require Import ZArith String DecimalString List Bool Lia.
Import ListNotations.
Open Scope Z_scope.

(** ** Shared data *)

Definition Point : Type := Z * Z.
Definition Color : Type := Z * Z * Z.
Definition Centroid : Type := Z * Z.
(** A region [(x, y, w, h)] as stored in the position list. *)
Definition Region : Type := Z * Z * Z * Z.

Inductive DrawOp : Type :=
| Line (pt1 pt2 : Point) (color : Color) (thickness : Z)
| Rectangle (pt1 pt2 : Point) (color : Color) (thickness : Z)
| Circle (center : Point) (radius : Z) (color : Color) (thickness : Z)
| PutText (text : string) (org : Point) (color : Color) (thickness : Z)
| PutTextRect (text : string) (pos : Point) (scale thickness offset : Z)
              (colorR : Color).

Record Frame : Type := mkFrame {
  shape0 : Z;                      (* frame.shape[0], the height *)
  shape1 : Z;                      (* frame.shape[1], the width *)
  pixels : Z -> Z -> Color;        (* contents before any overlay *)
  overlay : list DrawOp            (* drawing calls applied, oldest first *)
}.

Definition draw (op : DrawOp) (f : Frame) : Frame :=
  mkFrame (shape0 f) (shape1 f) (pixels f) (overlay f ++ [op]).

(** A frame extends another when it is the same buffer with more drawn on. *)
Definition extends (f' f : Frame) (ops : list DrawOp) : Prop :=
  f' = mkFrame (shape0 f) (shape1 f) (pixels f) (overlay f ++ ops).

(** Python's [str] on an integer. *)
Definition str (n : Z) : string := NilZero.string_of_int (Z.to_int n).

(** [enumerate] with an explicit start index. *)
Fixpoint enumerate_from {A : Type} (i : Z) (l : list A) : list (Z * A) :=
  match l with
  | [] => []
  | a :: l' => (i, a) :: enumerate_from (i + 1) l'
  end.

Definition enumerate {A : Type} (l : list A) : list (Z * A) :=
  enumerate_from 0 l.

(** ** Occupancy classifier ([parking_detection.py]) *)

Module Parking.

Definition Mask : Type := list (list Z).

Definition mask_shape0 (m : Mask) : Z := Z.of_nat (length m).
Definition mask_shape1 (m : Mask) : Z := Z.of_nat (length (hd [] m)).

(** Python slice bound: a negative bound counts from the end, and every bound
    is clipped to the sequence. *)
Definition slice_bound (len i : Z) : Z :=
  if i <? 0 then Z.max 0 (i + len) else Z.min i len.

Definition py_slice {A : Type} (l : list A) (start stop : Z) : list A :=
  let len := Z.of_nat (length l) in
  let a := slice_bound len start in
  let b := slice_bound len stop in
  firstn (Z.to_nat (b - a)) (skipn (Z.to_nat a) l).

(** [processed_img[y:y + h, x:x + w]] *)
Definition crop (m : Mask) (y y' x x' : Z) : Mask :=
  map (fun row => py_slice row x x') (py_slice m y y').

Definition nonzero (p : Z) : bool := negb (p =? 0).

(** [cv2.countNonZero] *)
Definition countNonZero (m : Mask) : Z :=
  Z.of_nat (length (filter nonzero (concat m))).

Definition green : Color := (0, 255, 0).
Definition red : Color := (0, 0, 255).

(** The guard of the loop body. *)
Definition in_bounds (processed_img : Mask) (r : Region) : bool :=
  let '(x, y, w, h) := r in
  (y >=? 0) && (y + h <? mask_shape0 processed_img) &&
  (x >=? 0) && (x + w <? mask_shape1 processed_img).

Definition region_count (processed_img : Mask) (r : Region) : Z :=
  let '(x, y, w, h) := r in
  countNonZero (crop processed_img y (y + h) x (x + w)).

(** One iteration of the [for i, (x, y, w, h) in enumerate(...)] loop. *)
Definition check_space (processed_img : Mask) (threshold : Z)
    (st : Frame * Z) (ir : Z * Region) : Frame * Z :=
  let '(img, space_counter) := st in
  let '(i, (x, y, w, h)) := ir in
  if (y >=? 0) && (y + h <? mask_shape0 processed_img) &&
     (x >=? 0) && (x + w <? mask_shape1 processed_img)
  then
    let img := draw (PutText (str i) (x + 5, y + 15) (255, 255, 0) 2) img in
    let imgCrop := crop processed_img y (y + h) x (x + w) in
    let count := countNonZero imgCrop in
    let '(color, space_counter) :=
      if count <? threshold then (green, space_counter + 1)
      else (red, space_counter) in
    let img := draw (Rectangle (x, y) (x + w, y + h) color 2) img in
    let img :=
      draw (PutTextRect (str count) (x, y + h - 3) 1 2 0 (255, 0, 255)) img in
    (img, space_counter)
  else (img, space_counter).

Definition check_parking_space (processed_img : Mask) (img : Frame)
    (parking_positions : list Region) (threshold : Z) : Frame * Z :=
  fold_left (check_space processed_img threshold)
            (enumerate parking_positions) (img, 0).

(** The data model's derived boolean, in the words of the specification:
    [occupied = count >= threshold]. *)
Definition occupied (count threshold : Z) : bool := threshold <=? count.

(** The boxes on a frame, with their colour. *)
Definition boxes (ops : list DrawOp) : list (Point * Point * Color) :=
  flat_map (fun op => match op with
                      | Rectangle p q c _ => [(p, q, c)]
                      | _ => []
                      end) ops.

(** The texts on a frame: space IDs ([PutText]) and counts ([PutTextRect]). *)
Definition id_labels (ops : list DrawOp) : list (string * Point) :=
  flat_map (fun op => match op with
                      | PutText t p _ _ => [(t, p)]
                      | _ => []
                      end) ops.

Definition count_labels (ops : list DrawOp) : list (string * Point) :=
  flat_map (fun op => match op with
                      | PutTextRect t p _ _ _ _ => [(t, p)]
                      | _ => []
                      end) ops.

Definition box_of (processed_img : Mask) (threshold : Z) (r : Region)
  : Point * Point * Color :=
  let '(x, y, w, h) := r in
  ((x, y), (x + w, y + h),
   if occupied (region_count processed_img r) threshold then red else green).

Definition is_free (processed_img : Mask) (threshold : Z) (r : Region) : bool :=
  in_bounds processed_img r &&
  negb (occupied (region_count processed_img r) threshold).

(** The pixel at column [px] of row [py]. *)
Definition pixel_at (m : Mask) (px py : Z) : Z :=
  nth (Z.to_nat px) (nth (Z.to_nat py) m []) 0.

(** A numpy array: every row has the width of the first. *)
Definition rectangular (m : Mask) : Prop :=
  Forall (fun row => length row = length (hd [] m)) m.

(** The pixel positions of a region, row by row. *)
Definition region_positions (r : Region) : list (Z * Z) :=
  let '(x, y, w, h) := r in
  flat_map (fun j => map (fun i => (x + Z.of_nat i, y + Z.of_nat j))
                         (seq 0 (Z.to_nat w)))
           (seq 0 (Z.to_nat h)).

(** The active (non-zero) pixels of the processed image inside a region. *)
Definition active_pixels (m : Mask) (r : Region) : list (Z * Z) :=
  filter (fun p => nonzero (pixel_at m (fst p) (snd p))) (region_positions r).

(** The ID label that an iteration draws for region [i]. *)
Definition id_label (ir : Z * Region) : string * Point :=
  let '(i, (x, y, w, h)) := ir in (str i, (x + 5, y + 15)).

(** The region as a set of pixel positions, and the frame as one. *)
Definition region_pixel (r : Region) (px py : Z) : Prop :=
  let '(x, y, w, h) := r in x <= px < x + w /\ y <= py < y + h.

Definition frame_pixel (processed_img : Mask) (px py : Z) : Prop :=
  0 <= px < mask_shape1 processed_img /\ 0 <= py < mask_shape0 processed_img.

End Parking.

(** ** Vehicle counting ([vehicle_counting.py]) *)

Module Counting.

Definition get_centroid (x y w h : Z) : Centroid := (x + w / 2, y + h / 2).

Definition centroid_eqb (a b : Centroid) : bool :=
  (fst a =? fst b) && (snd a =? snd b).

(** [c in matches] on a list of integer pairs. *)
Definition mem (c : Centroid) (matches : list Centroid) : bool :=
  existsb (centroid_eqb c) matches.

(** [l[i]] on a Python list: negative indices count from the end, anything
    else out of range raises [IndexError]. *)
Definition py_index {A : Type} (l : list A) (i : Z) : option A :=
  let n := Z.of_nat (length l) in
  let j := if i <? 0 then i + n else i in
  if (0 <=? j) && (j <? n) then nth_error l (Z.to_nat j) else None.

(** [np.linalg.norm(np.array(match) - np.array(c)) < 50].  Both points have
    integer coordinates, so the squared distance is an integer [n], and
    [sqrt n < 50] holds exactly when [n < 2500] ([sqrt 2500 = 50] is exact and
    the square root is monotone); the test is written on the square. *)
Definition near (m c : Centroid) : bool :=
  let dx := fst m - fst c in
  let dy := snd m - snd c in
  dx * dx + dy * dy <? 2500.

(** Exceptions that can arise inside [detect_vehicles_ml]. *)
Inductive Exn : Type :=
| DetectorError (msg : string)     (* raised by ml_detector.detect_vehicles *)
| IndexError                       (* ml_detector.classes[label] *)
| CvError (op : DrawOp).           (* raised by a drawing call *)

Section Environment.

(** Lines 12-22 and 33 of the source: the bounding rectangles
    [cv2.boundingRect(c)] of the contours that OpenCV finds in the processed
    difference of the two frames, in contour order. *)
Variable boundingRects : Frame -> Frame -> list Region.

(** Detection scores are floats; only their [:.2f] rendering is used. *)
Variable Score : Type.
Variable format_score : Score -> string.

(** [detect_vehicles_ml] runs every library call under [try/except
    Exception]: whether a drawing call raises is part of what the function
    does.  [cv_raises op] tells whether the call behind [op] raises.  The other
    two functions have no handler: an exception there leaves the function, and
    they are modelled on runs where no library call raises. *)
Variable cv_raises : DrawOp -> bool.

(** *** Motion-based tracker *)

(** Body of [for (i, c) in enumerate(contours)]. *)
Definition contour_step (min_contour_width min_contour_height : Z)
    (st : Frame * list Centroid) (c : Region) : Frame * list Centroid :=
  let '(frame1, new_matches) := st in
  let '(x, y, w, h) := c in
  let contour_valid := (w >=? min_contour_width) && (h >=? min_contour_height) in
  if negb contour_valid then (frame1, new_matches)
  else
    let frame1 :=
      draw (Rectangle (x - 10, y - 10) (x + w + 10, y + h + 10) (255, 0, 0) 2)
           frame1 in
    let centroid := get_centroid x y w h in
    let new_matches := new_matches ++ [centroid] in
    let frame1 := draw (Circle centroid 5 (0, 255, 0) (-1)) frame1 in
    (frame1, new_matches).

(** Body of [for (x, y) in new_matches]. *)
Definition crossing_step (line_y offset : Z)
    (st : Z * list Centroid) (m : Centroid) : Z * list Centroid :=
  let '(new_counter, remaining_matches) := st in
  let '(x, y) := m in
  if (line_y - offset <? y) && (y <? line_y + offset)
  then (new_counter + 1, remaining_matches)
  else (new_counter, remaining_matches ++ [(x, y)]).

Definition detect_vehicles_traditional (frame1 frame2 : Frame)
    (min_contour_width min_contour_height line_height offset : Z)
    (matches : list Centroid) (vehicle_counter : Z)
  : Frame * list Centroid * Z :=
  let contours := boundingRects frame1 frame2 in
  let line_y :=
    if line_height >=? shape0 frame1 then shape0 frame1 - 50
    else line_height in
  let frame1 :=
    draw (Line (0, line_y) (shape1 frame1, line_y) (0, 255, 0) 2) frame1 in
  (* new_matches = matches.copy(): the caller's list is left alone *)
  let '(frame1, new_matches) :=
    fold_left (contour_step min_contour_width min_contour_height)
              contours (frame1, matches) in
  let '(new_counter, remaining_matches) :=
    fold_left (crossing_step line_y offset) new_matches (vehicle_counter, []) in
  let frame1 :=
    draw (PutTextRect ("Vehicle Count: " ++ str new_counter) (10, 30) 2 2 10
                      (0, 200, 0)) frame1 in
  (frame1, remaining_matches, new_counter).

(** *** Detector-based tracker *)

(** A detection [(x1, y1, x2, y2, score, label)]. *)
Definition Detection : Type := Z * Z * Z * Z * Score * Z.

(** The injected detector: its [detect_vehicles] method, which may raise, and
    its [classes] attribute. *)
Record MLDetector : Type := mkDetector {
  detect_vehicles : Frame -> Exn + list Detection;
  classes : list string
}.

(** The two objects the function mutates in place: the frame buffer and the
    list the caller passed as [matches]. *)
Record Heap : Type := mkHeap {
  h_frame : Frame;
  h_matches : list Centroid
}.

(** A statement either completes or raises; what it wrote to the heap before
    raising stays written. *)
Inductive Outcome (A : Type) : Type :=
| Returns (a : A) (h : Heap)
| Raises (e : Exn) (h : Heap).
Arguments Returns {A} a h.
Arguments Raises {A} e h.

Definition M (A : Type) : Type := Heap -> Outcome A.

Definition ret {A : Type} (a : A) : M A := fun h => Returns a h.

Definition bind {A B : Type} (m : M A) (k : A -> M B) : M B :=
  fun h => match m h with
           | Returns a h' => k a h'
           | Raises e h' => Raises e h'
           end.

Definition raise {A : Type} (e : Exn) : M A := fun h => Raises e h.

Notation "x <- m ;; k" := (bind m (fun x => k))
  (at level 61, m at next level, right associativity).
Notation "m ;; k" := (bind m (fun _ => k))
  (at level 61, right associativity).

(** A drawing call on [frame]. *)
Definition cv (op : DrawOp) : M unit :=
  fun h => if cv_raises op then Raises (CvError op) h
           else Returns tt (mkHeap (draw op (h_frame h)) (h_matches h)).

(** [matches.append(centroid)] *)
Definition append_match (c : Centroid) : M unit :=
  fun h => Returns tt (mkHeap (h_frame h) (h_matches h ++ [c])).

Definition read_matches : M (list Centroid) := fun h => Returns (h_matches h) h.
Definition read_frame : M Frame := fun h => Returns (h_frame h) h.

Definition call {A : Type} (r : Exn + A) : M A :=
  match r with
  | inl e => raise e
  | inr a => ret a
  end.

Definition index_classes (cls : list string) (label : Z) : M string :=
  match py_index cls label with
  | Some name => ret name
  | None => raise IndexError
  end.

(** [for x1, y1, x2, y2, score, label in detections] *)
Fixpoint detection_loop (cls : list string) (detections : list Detection)
    (current_centroids : list Centroid) : M (list Centroid) :=
  match detections with
  | [] => ret current_centroids
  | (x1, y1, x2, y2, score, label) :: rest =>
      cv (Rectangle (x1, y1) (x2, y2) (0, 255, 0) 2) ;;
      let centroid_x := (x1 + x2) / 2 in
      let centroid_y := (y1 + y2) / 2 in
      let centroid := (centroid_x, centroid_y) in
      let current_centroids := current_centroids ++ [centroid] in
      cv (Circle centroid 5 (0, 0, 255) (-1)) ;;
      name <- index_classes cls label ;;
      let label_text := (name ++ ": " ++ format_score score)%string in
      cv (PutText label_text (x1, y1 - 10) (0, 255, 0) 2) ;;
      detection_loop cls rest current_centroids
  end.

(** [for centroid in current_centroids] *)
Fixpoint counting_loop (line_y offset : Z) (current_centroids : list Centroid)
    (new_counter : Z) : M Z :=
  match current_centroids with
  | [] => ret new_counter
  | centroid :: rest =>
      if (line_y - offset <? snd centroid) && (snd centroid <? line_y + offset)
      then
        matches <- read_matches ;;
        if negb (mem centroid matches)
        then append_match centroid ;;
             counting_loop line_y offset rest (new_counter + 1)
        else counting_loop line_y offset rest new_counter
      else counting_loop line_y offset rest new_counter
  end.

(** The body of the [try] block; it yields [(new_matches, new_counter)]. *)
Definition try_block (ml_detector : MLDetector)
    (vehicle_counter line_height offset : Z) : M (list Centroid * Z) :=
  frame <- read_frame ;;
  detections <- call (detect_vehicles ml_detector frame) ;;
  let line_y :=
    if line_height >=? shape0 frame then shape0 frame - 50 else line_height in
  cv (Line (0, line_y) (shape1 frame, line_y) (0, 255, 0) 2) ;;
  current_centroids <- detection_loop (classes ml_detector) detections [] ;;
  new_counter <- counting_loop line_y offset current_centroids vehicle_counter ;;
  matches <- read_matches ;;
  let new_matches :=
    filter (fun m => existsb (fun c => near m c) current_centroids) matches in
  cv (PutTextRect ("Vehicle Count: " ++ str new_counter) (10, 30) 2 2 10
                  (0, 200, 0)) ;;
  ret (new_matches, new_counter).

(** What the caller observes: the returned triple, the message printed by the
    handler if any, and the contents of the list object it passed as
    [matches] once the call is over. *)
Record MLResult : Type := mkResult {
  ret_frame : Frame;
  ret_matches : list Centroid;
  ret_counter : Z;
  printed : option Exn;
  arg_matches : list Centroid
}.

Definition detect_vehicles_ml (frame : Frame) (ml_detector : MLDetector)
    (matches : list Centroid) (vehicle_counter line_height offset : Z)
  : MLResult :=
  match try_block ml_detector vehicle_counter line_height offset
                  (mkHeap frame matches) with
  | Returns (new_matches, new_counter) h =>
      mkResult (h_frame h) new_matches new_counter None (h_matches h)
  | Raises e h =>
      (* return frame, matches, vehicle_counter: the same two objects *)
      mkResult (h_frame h) (h_matches h) vehicle_counter (Some e) (h_matches h)
  end.

End Environment.

Arguments Returns {A} a h.
Arguments Raises {A} e h.
Arguments mkDetector {Score} _ _.
Arguments detect_vehicles {Score} _ _.
Arguments classes {Score} _.
Arguments detection_loop {Score} _ _ _ _ _.
Arguments try_block {Score} _ _ _ _ _ _.
Arguments detect_vehicles_ml {Score} _ _ _ _ _ _ _ _.

(** *** Vocabulary of the specification *)

(** The counting line after clamping against the frame height. *)
Definition clamped_line (line_height frame_height : Z) : Z :=
  if frame_height <=? line_height then frame_height - 50 else line_height.

(** The crossing band, an open interval around the line. *)
Definition crossing_band (line_y offset y : Z) : Prop :=
  line_y - offset < y < line_y + offset.

Definition in_band (line_y offset : Z) (c : Centroid) : bool :=
  (line_y - offset <? snd c) && (snd c <? line_y + offset).

(** Midpoint of a detection's box. *)
Definition centroid_of {Score : Type} (d : Z * Z * Z * Z * Score * Z)
  : Centroid :=
  let '(x1, y1, x2, y2, _, _) := d in ((x1 + x2) / 2, (y1 + y2) / 2).

(** Squared Euclidean distance between two integer points. *)
Definition dist2 (a b : Centroid) : Z :=
  (fst a - fst b) * (fst a - fst b) + (snd a - snd b) * (snd a - snd b).

(** The size filter on contours, and the centroids a frame contributes. *)
Definition contour_valid (min_contour_width min_contour_height : Z)
    (c : Region) : bool :=
  let '(_, _, w, h) := c in
  (min_contour_width <=? w) && (min_contour_height <=? h).

Definition contour_centroid (c : Region) : Centroid :=
  let '(x, y, w, h) := c in get_centroid x y w h.

(** The combined pool of one call of the motion tracker: the carried
    centroids, then the centroids of this frame's size-valid contours. *)
Definition combined_pool (boundingRects : Frame -> Frame -> list Region)
    (frame1 frame2 : Frame) (min_contour_width min_contour_height : Z)
    (matches : list Centroid) : list Centroid :=
  matches ++
  map contour_centroid
      (filter (contour_valid min_contour_width min_contour_height)
              (boundingRects frame1 frame2)).

(** The detector tracker's counting pass as a function of the pool: a
    centroid in the band and not yet in the pool is counted and joins it. *)
Fixpoint count_new (line_y offset : Z) (current : list Centroid)
    (pool : list Centroid) (n : Z) : list Centroid * Z :=
  match current with
  | [] => (pool, n)
  | c :: rest =>
      if in_band line_y offset c && negb (mem c pool)
      then count_new line_y offset rest (pool ++ [c]) (n + 1)
      else count_new line_y offset rest pool n
  end.

(** Successive calls of the motion tracker on a stream of frame pairs, each
    fed the pool and counter the previous one returned. *)
Fixpoint track_traditional (boundingRects : Frame -> Frame -> list Region)
    (stream : list (Frame * Frame))
    (min_contour_width min_contour_height line_height offset : Z)
    (matches : list Centroid) (vehicle_counter : Z) : list Centroid * Z :=
  match stream with
  | [] => (matches, vehicle_counter)
  | (frame1, frame2) :: rest =>
      let '(_, remaining_matches, new_counter) :=
        detect_vehicles_traditional boundingRects frame1 frame2
          min_contour_width min_contour_height line_height offset
          matches vehicle_counter in
      track_traditional boundingRects rest
        min_contour_width min_contour_height line_height offset
        remaining_matches new_counter
  end.

End Counting.

(** ** The shipped detector ([vehicle_detector.py]) *)

Module Detector.

(** [VehicleDetector.classes] and [VehicleDetector.vehicle_classes]. *)
Definition classes : list string :=
  ["background"; "person"; "bicycle"; "car"; "motorcycle";
   "airplane"; "bus"; "train"; "truck"; "boat"]%string.

Definition vehicle_classes : list Z := [2; 3; 5; 6; 7; 8].

Section Inference.

Variable Score : Type.

(** A prediction of the network: box, score, label, as [zip(boxes, scores,
    labels)] yields them. *)
Definition Prediction : Type := (Z * Z * Z * Z) * Score * Z.

(** Lines 65-83 of the source: reading the shape, computing [scale],
    resizing, and running the network, any of which may raise. *)
Variable infer : Frame -> Counting.Exn + list Prediction.

(** [score > self.confidence_threshold], a comparison of floats. *)
Variable above_threshold : Score -> bool.

(** [scale < 1.0], and [int(v / scale)] for a coordinate [v]: both are float
    computations on the frame's shape. *)
Variable downscaled : Frame -> bool.
Variable unscale : Frame -> Z -> Z.

(** Body of [for box, score, label in zip(boxes, scores, labels)]. *)
Definition keep_vehicle (frame : Frame)
    (vehicle_detections : list (Counting.Detection Score)) (p : Prediction)
  : list (Counting.Detection Score) :=
  let '(box, score, label) := p in
  if above_threshold score && existsb (Z.eqb label) vehicle_classes
  then
    let '(x1, y1, x2, y2) := box in
    let '(x1, y1, x2, y2) :=
      if downscaled frame
      then (unscale frame x1, unscale frame y1,
            unscale frame x2, unscale frame y2)
      else (x1, y1, x2, y2) in
    vehicle_detections ++ [(x1, y1, x2, y2, score, label)]
  else vehicle_detections.

Definition detect_vehicles (frame : Frame)
  : Counting.Exn + list (Counting.Detection Score) :=
  match infer frame with
  | inl e => inl e
  | inr predictions => inr (fold_left (keep_vehicle frame) predictions [])
  end.


(** The score and label of a prediction, and of a detection. *)
Definition prediction_tag (p : Prediction) : Score * Z :=
  let '(_, score, label) := p in (score, label).

Definition detection_tag (d : Counting.Detection Score) : Score * Z :=
  let '(_, _, _, _, score, label) := d in (score, label).

Definition kept (p : Prediction) : bool :=
  let '(_, score, label) := p in
  above_threshold score && existsb (Z.eqb label) vehicle_classes.

Definition prediction_detection (p : Prediction) : Counting.Detection Score :=
  let '((x1, y1, x2, y2), score, label) := p in (x1, y1, x2, y2, score, label).

End Inference.

End Detector.

(** ** Positions on disk and the application object
       ([file_utils.py], [parking_management.py]) *)

Module Orchestrator.

(** Exceptions as the handlers tell them apart, with the text of [str(e)]. *)
Inductive ErrorKind : Type := FileNotFoundError | PermissionError | OtherError.

Record PyError : Type := mkError { kind : ErrorKind; text : string }.

(** The file system as the code uses it: [os.path.exists], what opening a
    path and unpickling it gives, the text of a text file, the error that
    opening a path for writing raises (if any), and what [cv2.imread] returns
    for a path ([None], or an image of some height and width). *)
Record FS : Type := mkFS {
  path_exists : string -> bool;
  load_pickle : string -> PyError + list Region;
  text_file : string -> option string;
  open_for_write : string -> option PyError;
  imread : string -> option (Z * Z)
}.

(** A file written and closed: it exists and reads back as what was dumped
    into it. *)
Definition write_pickle (f : FS) (path : string) (positions : list Region)
  : FS :=
  mkFS (fun p => if String.eqb p path then true else path_exists f p)
       (fun p => if String.eqb p path then inr positions else load_pickle f p)
       (fun p => if String.eqb p path then None else text_file f p)
       (open_for_write f) (imread f).

(** The attributes that [on_mouse_down] creates together. *)
Record Mouse : Type := mkMouse {
  drawing : bool;
  start_x : Z;
  start_y : Z;
  current_rect : option Z       (* None, or a canvas item id *)
}.

(** The attributes of [ParkingManagementSystem] that the modelled methods
    read or write, the file system, and the number of clock readings made so
    far.  [mouse] is [None] until [on_mouse_down] has run;
    [setup_tab_controller] tells whether that attribute exists yet. *)
Record App : Type := mkApp {
  posList : list Region;
  log_data : list string;
  current_reference_image : string;
  reference_dimensions : list (string * (Z * Z));
  total_spaces : Z;
  free_spaces : Z;
  occupied_spaces : Z;
  mouse : option Mouse;
  setup_tab_controller : bool;
  config_dir : string;
  log_dir : string;
  fs : FS;
  ticks : nat
}.

Definition set_posList (v : list Region) (a : App) : App :=
    mkApp v (log_data a) (current_reference_image a) (reference_dimensions a)
        (total_spaces a) (free_spaces a) (occupied_spaces a) (mouse a)
        (setup_tab_controller a) (config_dir a) (log_dir a) (fs a) (ticks a).

Definition set_log_data (v : list string) (a : App) : App :=
    mkApp (posList a) v (current_reference_image a) (reference_dimensions a)
        (total_spaces a) (free_spaces a) (occupied_spaces a) (mouse a)
        (setup_tab_controller a) (config_dir a) (log_dir a) (fs a) (ticks a).

Definition set_current_reference_image (v : string) (a : App) : App :=
    mkApp (posList a) (log_data a) v (reference_dimensions a) (total_spaces a)
        (free_spaces a) (occupied_spaces a) (mouse a) (setup_tab_controller a)
        (config_dir a) (log_dir a) (fs a) (ticks a).

Definition set_reference_dimensions (v : list (string * (Z * Z))) (a : App) : App :=
    mkApp (posList a) (log_data a) (current_reference_image a) v (total_spaces
        a) (free_spaces a) (occupied_spaces a) (mouse a) (setup_tab_controller
        a) (config_dir a) (log_dir a) (fs a) (ticks a).

Definition set_total_spaces (v : Z) (a : App) : App :=
    mkApp (posList a) (log_data a) (current_reference_image a)
        (reference_dimensions a) v (free_spaces a) (occupied_spaces a) (mouse
        a) (setup_tab_controller a) (config_dir a) (log_dir a) (fs a) (ticks
        a).

Definition set_free_spaces (v : Z) (a : App) : App :=
    mkApp (posList a) (log_data a) (current_reference_image a)
        (reference_dimensions a) (total_spaces a) v (occupied_spaces a) (mouse
        a) (setup_tab_controller a) (config_dir a) (log_dir a) (fs a) (ticks
        a).

Definition set_occupied_spaces (v : Z) (a : App) : App :=
    mkApp (posList a) (log_data a) (current_reference_image a)
        (reference_dimensions a) (total_spaces a) (free_spaces a) v (mouse a)
        (setup_tab_controller a) (config_dir a) (log_dir a) (fs a) (ticks a).

Definition set_mouse (v : option Mouse) (a : App) : App :=
    mkApp (posList a) (log_data a) (current_reference_image a)
        (reference_dimensions a) (total_spaces a) (free_spaces a)
        (occupied_spaces a) v (setup_tab_controller a) (config_dir a) (log_dir
        a) (fs a) (ticks a).

Definition set_fs (v : FS) (a : App) : App :=
    mkApp (posList a) (log_data a) (current_reference_image a)
        (reference_dimensions a) (total_spaces a) (free_spaces a)
        (occupied_spaces a) (mouse a) (setup_tab_controller a) (config_dir a)
        (log_dir a) v (ticks a).

Definition set_ticks (v : nat) (a : App) : App :=
    mkApp (posList a) (log_data a) (current_reference_image a)
        (reference_dimensions a) (total_spaces a) (free_spaces a)
        (occupied_spaces a) (mouse a) (setup_tab_controller a) (config_dir a)
        (log_dir a) (fs a) v.

(** Calls into the toolkit, which may raise. *)
Inductive UiCall : Type :=
| CanvasDelete (item : Z)
| CanvasCreateRectangle (x1 y1 x2 y2 : Z)
| ShowReferenceImage (path : string) (height width : Z).

Inductive Outcome (A : Type) : Type :=
| Ok (a : A) (s : App)
| Raised (e : PyError) (s : App).
Arguments Ok {A} a s.
Arguments Raised {A} e s.

Definition Act (A : Type) : Type := App -> Outcome A.

Definition ret {A : Type} (a : A) : Act A := fun s => Ok a s.

Definition bind {A B : Type} (m : Act A) (k : A -> Act B) : Act B :=
  fun s => match m s with
           | Ok a s' => k a s'
           | Raised e s' => Raised e s'
           end.

Definition raise {A : Type} (e : PyError) : Act A := fun s => Raised e s.

(** [try: body except Exception as e: handler(e)] *)
Definition try_except {A : Type} (body : Act A) (handler : PyError -> Act A)
  : Act A :=
  fun s => match body s with
           | Ok a s' => Ok a s'
           | Raised e s' => handler e s'
           end.

Definition get : Act App := fun s => Ok s s.
Definition modify (f : App -> App) : Act unit := fun s => Ok tt (f s).

Definition newline : string := String (Ascii.ascii_of_nat 10) EmptyString.

(** [d[key] = value] on a dict kept in insertion order. *)
Fixpoint dict_set {V : Type} (d : list (string * V)) (key : string) (value : V)
  : list (string * V) :=
  match d with
  | [] => [(key, value)]
  | (k, v) :: d' =>
      if String.eqb k key then (k, value) :: d'
      else (k, v) :: dict_set d' key value
  end.

(** [l.pop(i)] for an index in range. *)
Definition pop {A : Type} (i : nat) (l : list A) : list A :=
  firstn i l ++ skipn (S i) l.

Section Platform.

(** [os.path.join] and the root part of [os.path.splitext]. *)
Variable path_join : string -> string -> string.
Variable splitext_root : string -> string.

(** [datetime.now()] rendered with the log format and with the file-name
    format, at the n-th reading of the clock. *)
Variable clock_log : nat -> string.
Variable clock_file : nat -> string.

(** What a failed write leaves on disk, and the exception that unpickling a
    text file raises. *)
Variable failed_write : FS -> string -> FS.
Variable not_a_pickle : string -> PyError.


(** Whether a toolkit call raises, with the text of the exception, and the
    item id that [create_rectangle] returns. *)
Variable ui_raises : UiCall -> option string.
Variable rectangle_id : Z -> Z -> Z -> Z -> Z.

Notation "x <- m ;; k" := (bind m (fun x => k))
  (at level 61, m at next level, right associativity).
Notation "m ;; k" := (bind m (fun _ => k))
  (at level 61, right associativity).

Definition ui (c : UiCall) : Act unit :=
  match ui_raises c with
  | Some msg => raise (mkError OtherError msg)
  | None => ret tt
  end.

(** *** [ParkingManagementSystem.log_event]

    No code of the repository gives the application object a [log_text]
    attribute, so the branch that updates the display is not taken. *)

Definition log_event (message : string) : Act unit :=
  fun s =>
    let timestamp := clock_log (ticks s) in
    let log_entry := ("[" ++ timestamp ++ "] " ++ message)%string in
    Ok tt (set_ticks (S (ticks s)) (set_log_data (log_data s ++ [log_entry]) s)).

(** *** [file_utils.py] *)

(** [if log_event_callback: log_event_callback(msg)] *)
Definition notify (log_event_callback : option (string -> Act unit))
    (msg : string) : Act unit :=
  match log_event_callback with
  | Some callback => callback msg
  | None => ret tt
  end.

Definition position_file (config_dir current_reference_image : string)
  : string :=
  path_join config_dir ("CarParkPos_" ++ splitext_root current_reference_image).

Definition load_parking_positions (config_dir current_reference_image : string)
    (log_event_callback : option (string -> Act unit)) : Act (list Region) :=
  s <- get ;;
  let pos_file := position_file config_dir current_reference_image in
  let body : Act (list Region) :=
    if negb (path_exists (fs s) config_dir)
    then raise (mkError FileNotFoundError
                  ("Config directory " ++ config_dir ++ " does not exist"))
    else if path_exists (fs s) pos_file
    then match load_pickle (fs s) pos_file with
         | inr positions => ret positions
         | inl e => raise e
         end
    else ret [] in
  try_except body
    (fun e =>
       match kind e with
       | FileNotFoundError =>
           notify log_event_callback ("Position file not found: " ++ text e) ;;
           ret []
       | PermissionError =>
           notify log_event_callback ("Permission denied: " ++ text e) ;;
           ret []
       | OtherError =>
           notify log_event_callback ("Unexpected error: " ++ text e) ;;
           ret []
       end).

Definition save_parking_positions (config_dir current_reference_image : string)
    (positions : list Region)
    (log_event_callback : option (string -> Act unit)) : Act bool :=
  let pos_file := position_file config_dir current_reference_image in
  let body : Act bool :=
    s <- get ;;
    match open_for_write (fs s) pos_file with
    | Some e =>
        modify (set_fs (failed_write (fs s) pos_file)) ;;
        raise e
    | None =>
        modify (set_fs (write_pickle (fs s) pos_file positions)) ;;
        notify log_event_callback
          ("Saved " ++ str (Z.of_nat (length positions)) ++
           " parking spaces for " ++ current_reference_image) ;;
        ret true
    end in
  try_except body
    (fun e =>
       notify log_event_callback ("Failed to save parking spaces: " ++ text e) ;;
       ret false).



(** *** Methods of [ParkingManagementSystem] *)

Definition app_load_parking_positions (reference_image : option string)
  : Act unit :=
  s <- get ;;
  let reference_image :=
    match reference_image with
    | None => current_reference_image s
    | Some r => r
    end in
  positions <- load_parking_positions (config_dir s) reference_image
                 (Some log_event) ;;
  modify (set_posList positions) ;;
  modify (set_total_spaces (Z.of_nat (length positions))) ;;
  modify (set_free_spaces 0) ;;
  modify (set_occupied_spaces (Z.of_nat (length positions))).

Definition app_save_parking_spaces : Act bool :=
  try_except
    (s <- get ;;
     if String.eqb (current_reference_image s) EmptyString
     then log_event "No reference image selected" ;; ret false
     else
       success <- save_parking_positions (config_dir s)
                    (current_reference_image s) (posList s)
                    (Some log_event) ;;
       (if success
        then s <- get ;;
             log_event ("Saved " ++ str (Z.of_nat (length (posList s))) ++
                        " parking spaces")
        else ret tt) ;;
       ret success)
    (fun e =>
       log_event ("Error saving parking spaces: " ++ text e) ;; ret false).

Definition load_reference_image (image_path : option string) : Act bool :=
  try_except
    ((match image_path with
      | Some path =>
          if String.eqb path EmptyString then ret tt
          else modify (set_current_reference_image path)
      | None => ret tt
      end) ;;
     s <- get ;;
     if String.eqb (current_reference_image s) EmptyString
     then log_event "No reference image selected" ;; ret false
     else if negb (path_exists (fs s) (current_reference_image s))
     then log_event ("Reference image not found: " ++
                     current_reference_image s) ;;
          ret false
     else
       match imread (fs s) (current_reference_image s) with
       | None => log_event "Failed to load reference image" ;; ret false
       | Some (height, width) =>
           modify (set_reference_dimensions
                     (dict_set (reference_dimensions s)
                               (current_reference_image s) (width, height))) ;;
           positions <- load_parking_positions (config_dir s)
                          (current_reference_image s) (Some log_event) ;;
           modify (set_posList positions) ;;
           (if setup_tab_controller s
            then ui (ShowReferenceImage (current_reference_image s)
                                        height width)
            else ret tt) ;;
           ret true
       end)
    (fun e =>
       log_event ("Error loading reference image: " ++ text e) ;; ret false).

Definition clear_all_spaces : Act bool :=
  try_except
    (modify (set_posList []) ;;
     log_event "Cleared all parking spaces" ;;
     s <- get ;;
     (if setup_tab_controller s
      then load_reference_image None ;; ret tt
      else ret tt) ;;
     ret true)
    (fun e =>
       log_event ("Error clearing parking spaces: " ++ text e) ;; ret false).

Definition attribute_error (name : string) : PyError :=
  mkError OtherError
    ("'ParkingManagementSystem' object has no attribute '" ++ name ++ "'").

(** Reading [self.drawing] and its companions. *)
Definition get_mouse : Act Mouse :=
  s <- get ;;
  match mouse s with
  | Some m => ret m
  | None => raise (attribute_error "drawing")
  end.

Definition truthy (item : option Z) : bool :=
  match item with
  | Some id => negb (id =? 0)
  | None => false
  end.

Definition on_mouse_down (event_x event_y : Z) : Act unit :=
  try_except
    (s <- get ;;
     if setup_tab_controller s
     then modify (set_mouse (Some (mkMouse true event_x event_y None)))
     else ret tt)
    (fun e => log_event ("Error handling mouse down: " ++ text e)).

Definition on_mouse_move (event_x event_y : Z) : Act unit :=
  try_except
    (s <- get ;;
     if setup_tab_controller s
     then
       m <- get_mouse ;;
       if drawing m
       then
         (match current_rect m with
          | Some item => if truthy (current_rect m)
                         then ui (CanvasDelete item) else ret tt
          | None => ret tt
          end) ;;
         ui (CanvasCreateRectangle (start_x m) (start_y m) event_x event_y) ;;
         modify (set_mouse
                   (Some (mkMouse (drawing m) (start_x m) (start_y m)
                            (Some (rectangle_id (start_x m) (start_y m)
                                                event_x event_y)))))
       else ret tt
     else ret tt)
    (fun e => log_event ("Error handling mouse move: " ++ text e)).

Definition on_mouse_up (event_x event_y : Z) : Act unit :=
  try_except
    (s <- get ;;
     if setup_tab_controller s
     then
       m <- get_mouse ;;
       if drawing m
       then
         modify (set_mouse
                   (Some (mkMouse false (start_x m) (start_y m)
                                  (current_rect m)))) ;;
         (match current_rect m with
          | Some item => if truthy (current_rect m)
                         then ui (CanvasDelete item) else ret tt
          | None => ret tt
          end) ;;
         let x1 := Z.min (start_x m) event_x in
         let y1 := Z.min (start_y m) event_y in
         let x2 := Z.max (start_x m) event_x in
         let y2 := Z.max (start_y m) event_y in
         let width := x2 - x1 in
         let height := y2 - y1 in
         if (width >? 20) && (height >? 20)
         then
           s <- get ;;
           modify (set_posList (posList s ++ [(x1, y1, width, height)])) ;;
           ui (CanvasCreateRectangle x1 y1 x2 y2) ;;
           log_event ("Added parking space at (" ++ str x1 ++ ", " ++
                      str y1 ++ ")")
         else ret tt
       else ret tt
     else ret tt)
    (fun e => log_event ("Error handling mouse up: " ++ text e)).

(** [for i, (px, py, w, h) in enumerate(self.posList)] of [on_right_click]. *)
Fixpoint right_click_scan (x y : Z) (i : nat) (rest : list Region)
  : Act unit :=
  match rest with
  | [] => ret tt
  | (px, py, w, h) :: rest' =>
      if (px <=? x) && (x <=? px + w) && ((py <=? y) && (y <=? py + h))
      then
        s <- get ;;
        modify (set_posList (pop i (posList s))) ;;
        log_event ("Removed parking space at (" ++ str px ++ ", " ++
                   str py ++ ")") ;;
        load_reference_image None ;;
        ret tt
      else right_click_scan x y (S i) rest'
  end.

Definition on_right_click (event_x event_y : Z) : Act unit :=
  try_except
    (s <- get ;;
     if setup_tab_controller s
     then right_click_scan event_x event_y 0 (posList s)
     else ret tt)
    (fun e => log_event ("Error handling right click: " ++ text e)).

(** [gpu_utils.diagnose_gpu] returns its lines joined by newlines; the lines
    themselves come from the GPU runtime. *)
Definition diagnose_gpu (results : list string) : string :=
  String.concat newline results.

Fixpoint characters (s : string) : list string :=
  match s with
  | EmptyString => []
  | String c rest => String c EmptyString :: characters rest
  end.

Fixpoint for_each {A : Type} (l : list A) (body : A -> Act unit) : Act unit :=
  match l with
  | [] => ret tt
  | a :: l' => body a ;; for_each l' body
  end.

(** [ParkingManagementSystem.diagnose_gpu]: [for result in results] runs over
    the string that the helper returned. *)
Definition app_diagnose_gpu (runtime_lines : list string) : Act unit :=
  let results := diagnose_gpu runtime_lines in
  for_each (characters results) log_event.


(** The left-button bindings of [SetupTab._setup_mouse_events]. *)
Inductive MouseEvent : Type :=
| ButtonPress (x y : Z)
| Motion (x y : Z)
| ButtonRelease (x y : Z).

Definition dispatch (ev : MouseEvent) : Act unit :=
  match ev with
  | ButtonPress x y => on_mouse_down x y
  | Motion x y => on_mouse_move x y
  | ButtonRelease x y => on_mouse_up x y
  end.

End Platform.

(** *** Vocabulary *)

(** The first position of the list that contains the click, borders
    included. *)
Definition contains_click (x y : Z) (r : Region) : bool :=
  let '(px, py, w, h) := r in
  (px <=? x) && (x <=? px + w) && ((py <=? y) && (y <=? py + h)).

Fixpoint first_hit (x y : Z) (l : list Region) : option nat :=
  match l with
  | [] => None
  | r :: l' => if contains_click x y r then Some 0%nat
               else option_map S (first_hit x y l')
  end.

(** What [load_parking_positions] finds for a configuration directory and
    a position file: the pickled list, or nothing. *)
Definition stored_positions (f : FS) (config_dir pos_file : string)
  : list Region :=
  if path_exists f config_dir && path_exists f pos_file
  then match load_pickle f pos_file with
       | inr positions => positions
       | inl _ => []
       end
  else [].

(** Whether [load_reference_image] gets as far as loading the positions. *)
Definition image_loads (s : App) : bool :=
  negb (String.eqb (current_reference_image s) EmptyString) &&
  path_exists (fs s) (current_reference_image s) &&
  match imread (fs s) (current_reference_image s) with
  | Some _ => true
  | None => false
  end.

(** A region as the mouse is meant to make them. *)
Definition drawn_size (r : Region) : Prop :=
  let '(_, _, w, h) := r in 20 < w /\ 20 < h.

(** A state after more entries were appended to the log, one clock reading
    per entry. *)
Definition logged (entries : list string) (s : App) : App :=
  set_ticks (length entries + ticks s)
            (set_log_data (log_data s ++ entries) s).

Definition log_entry (timestamp message : string) : string :=
  ("[" ++ timestamp ++ "] " ++ message)%string.

(** The state after a sequence of handlers, each run to its end. *)
Fixpoint after_events (handle : MouseEvent -> Act unit)
    (events : list MouseEvent) (s : App) : App :=
  match events with
  | [] => s
  | ev :: rest =>
      after_events handle rest
        (match handle ev s with
         | Ok _ s' => s'
         | Raised _ s' => s'
         end)
  end.

(** The state and the value an action ends with. *)
Definition state_of {A : Type} (o : Outcome A) : App :=
  match o with
  | Ok _ s => s
  | Raised _ s => s
  end.

Definition returned {A : Type} (o : Outcome A) : option A :=
  match o with
  | Ok a _ => Some a
  | Raised _ _ => None
  end.

End Orchestrator.

(** ** Sample inputs *)

(** A frame with black contents and nothing drawn on it. *)
Definition blank_frame (height width : Z) : Frame :=
  mkFrame height width (fun _ _ => (0, 0, 0)) [].

(** A 4x4 processed image with a 2x2 block of active pixels. *)
Definition sample_mask : Parking.Mask :=
  [[0; 0; 0; 0]; [0; 255; 255; 0]; [0; 255; 255; 0]; [0; 0; 0; 0]].

(** The class table of [VehicleDetector]. *)
Definition coco_classes : list string :=
  ["background"; "person"; "bicycle"; "car"; "motorcycle";
   "airplane"; "bus"; "train"; "truck"; "boat"]%string.

(** A detector that reports one car whose box is centred on [(320, 400)]. *)
Definition one_car : Counting.MLDetector unit :=
  Counting.mkDetector (fun _ => inr [(300, 380, 340, 420, tt, 3)])
                      coco_classes.

(** A detector that reports nothing. *)
Definition no_car : Counting.MLDetector unit :=
  Counting.mkDetector (fun _ => inr []) coco_classes.

(** A detector whose inference fails. *)
Definition broken_detector : Counting.MLDetector unit :=
  Counting.mkDetector (fun _ => inl (Counting.DetectorError "CUDA out of memory"))
                      coco_classes.

Definition two_decimals (_ : unit) : string := "0.90".

(** Library behaviours: no drawing call raises; the count label raises. *)
Definition all_calls_succeed (_ : DrawOp) : bool := false.

Definition count_label_raises (op : DrawOp) : bool :=
  match op with
  | PutTextRect _ _ _ _ _ _ => true
  | _ => false
  end.

(** A motion front end that finds one 40x40 blob at [(100, 200)]. *)
Definition one_blob (_ _ : Frame) : list Region := [(100, 200, 40, 40)].

(** A disk with the configuration directory and one readable reference
    image of 720 by 1280; nothing is stored yet and every path can be opened
    for writing. *)
Definition sample_disk : Orchestrator.FS :=
  Orchestrator.mkFS
    (fun p => String.eqb p "config" || String.eqb p "carParkImg.png")
    (fun p => inl (Orchestrator.mkError Orchestrator.FileNotFoundError p))
    (fun _ => None)
    (fun _ => None)
    (fun p => if String.eqb p "carParkImg.png" then Some (720, 1280) else None).

(** The same disk after one region was saved for that image. *)
Definition stored_disk : Orchestrator.FS :=
  Orchestrator.write_pickle sample_disk "config/CarParkPos_carParkImg"
    [(5, 5, 40, 40)].

(** An application object with the setup tab built, one line in its log, and
    the given positions, reference image and disk. *)
Definition sample_app (positions : list Region) (image : string)
    (disk : Orchestrator.FS) : Orchestrator.App :=
  Orchestrator.mkApp positions ["[t0] started"%string] image [] 0 0 0 None true
                     "config" "logs" disk 0.

(** Platform behaviours for the samples: POSIX path joining, the root of the
    sample image name, a clock that shows the number of readings made, a
    failed write that leaves no file, an unpickling error, a toolkit whose
    calls all succeed, and one whose calls all fail. *)
Definition posix_join (a b : string) : string := (a ++ "/" ++ b)%string.

Definition file_root (p : string) : string :=
  if String.eqb p "carParkImg.png" then "carParkImg"%string else p.

Definition tick_stamp (n : nat) : string := str (Z.of_nat n).

Definition no_partial_file (f : Orchestrator.FS) (_ : string)
  : Orchestrator.FS := f.


Definition toolkit_ok (_ : Orchestrator.UiCall) : option string := None.

Definition toolkit_down (_ : Orchestrator.UiCall) : option string :=
  Some "application has been destroyed"%string.

Definition next_item (_ _ _ _ : Z) : Z := 1.

(** * Properties of the occupancy classifier *)

Section ParkingFacts.
Import Parking.

Variable processed_img : Mask.
Variable threshold : Z.

Lemma occupied_not_below (count : Z) :
  occupied count threshold = negb (count <? threshold).
Proof.
  unfold occupied.
  destruct (Z.leb_spec threshold count), (Z.ltb_spec count threshold);
    simpl; auto; lia.
Qed.

Lemma check_space_skipped img n i r :
  in_bounds processed_img r = false ->
  check_space processed_img threshold (img, n) (i, r) = (img, n).
Proof.
  destruct r as [[[x y] w] h]. unfold in_bounds, check_space.
  intros ->. reflexivity.
Qed.

Lemma check_space_scored img n i x y w h :
  in_bounds processed_img (x, y, w, h) = true ->
  check_space processed_img threshold (img, n) (i, (x, y, w, h)) =
  (draw (PutTextRect (str (region_count processed_img (x, y, w, h)))
                     (x, y + h - 3) 1 2 0 (255, 0, 255))
     (draw (Rectangle (x, y) (x + w, y + h)
              (if occupied (region_count processed_img (x, y, w, h)) threshold
               then red else green) 2)
        (draw (PutText (str i) (x + 5, y + 15) (255, 255, 0) 2) img)),
   n + (if occupied (region_count processed_img (x, y, w, h)) threshold
        then 0 else 1)).
Proof.
  unfold in_bounds, check_space. intros ->.
  rewrite occupied_not_below. unfold region_count.
  destruct (_ <? threshold); simpl; f_equal; lia.
Qed.

Lemma enumerate_from_app {A : Type} (l l' : list A) i :
  enumerate_from i (l ++ l') =
  enumerate_from i l ++ enumerate_from (i + Z.of_nat (length l)) l'.
Proof.
  revert i. induction l as [|a l IH]; intros i; simpl.
  - f_equal. lia.
  - rewrite IH. do 3 f_equal. lia.
Qed.

Lemma boxes_app l l' : boxes (l ++ l') = boxes l ++ boxes l'.
Proof. apply flat_map_app. Qed.

Lemma count_labels_app l l' :
  count_labels (l ++ l') = count_labels l ++ count_labels l'.
Proof. apply flat_map_app. Qed.

(** The loop, from any index and any state: counter and boxes. *)
Lemma check_loop_counter ps : forall i img n,
  snd (fold_left (check_space processed_img threshold)
                 (enumerate_from i ps) (img, n)) =
  n + Z.of_nat (length (filter (is_free processed_img threshold) ps)).
Proof.
  induction ps as [|r ps IH]; intros i img n; cbn [fold_left enumerate_from].
  - simpl. lia.
  - cbn [filter]. destruct (in_bounds processed_img r) eqn:Hb.
    + destruct r as [[[x y] w] h]. rewrite check_space_scored by exact Hb.
      rewrite IH.
      replace (is_free processed_img threshold (x, y, w, h))
        with (negb (occupied (region_count processed_img (x, y, w, h))
                             threshold))
        by (unfold is_free; now rewrite Hb).
      destruct (occupied _ threshold); cbn [negb length]; lia.
    + rewrite check_space_skipped by exact Hb. rewrite IH.
      replace (is_free processed_img threshold r) with false
        by (unfold is_free; now rewrite Hb).
      reflexivity.
Qed.

Lemma check_loop_boxes ps : forall i img n,
  boxes (overlay (fst (fold_left (check_space processed_img threshold)
                                 (enumerate_from i ps) (img, n)))) =
  boxes (overlay img) ++
  map (box_of processed_img threshold) (filter (in_bounds processed_img) ps).
Proof.
  induction ps as [|r ps IH]; intros i img n; cbn [fold_left enumerate_from].
  - simpl. now rewrite app_nil_r.
  - cbn [filter]. destruct (in_bounds processed_img r) eqn:Hb.
    + destruct r as [[[x y] w] h]. rewrite check_space_scored by exact Hb.
      rewrite IH. unfold draw; cbn [overlay]. rewrite !boxes_app.
      cbn [map]. rewrite <- !app_assoc. reflexivity.
    + rewrite check_space_skipped by exact Hb. apply IH.
Qed.

Lemma check_loop_count_labels ps : forall i img n,
  count_labels (overlay (fst (fold_left (check_space processed_img threshold)
                                        (enumerate_from i ps) (img, n)))) =
  count_labels (overlay img) ++
  map (fun r => let '(x, y, w, h) := r in
                (str (region_count processed_img r), (x, y + h - 3)))
      (filter (in_bounds processed_img) ps).
Proof.
  induction ps as [|r ps IH]; intros i img n; cbn [fold_left enumerate_from].
  - simpl. now rewrite app_nil_r.
  - cbn [filter]. destruct (in_bounds processed_img r) eqn:Hb.
    + destruct r as [[[x y] w] h]. rewrite check_space_scored by exact Hb.
      rewrite IH. unfold draw; cbn [overlay]. rewrite !count_labels_app.
      cbn [map]. rewrite <- !app_assoc. reflexivity.
    + rewrite check_space_skipped by exact Hb. apply IH.
Qed.

(** A region that fails the guard leaves no trace: the loop continues from
    the state reached before it, and later regions keep their indices. *)
Lemma check_parking_space_skip img pre r post :
  in_bounds processed_img r = false ->
  check_parking_space processed_img img (pre ++ r :: post) threshold =
  fold_left (check_space processed_img threshold)
            (enumerate_from (Z.of_nat (length pre) + 1) post)
            (check_parking_space processed_img img pre threshold).
Proof.
  intros Hb. unfold check_parking_space, enumerate.
  rewrite enumerate_from_app, fold_left_app. cbn [enumerate_from fold_left].
  destruct (fold_left _ (enumerate_from 0 pre) (img, 0)) as [img' n'].
  rewrite check_space_skipped by exact Hb. reflexivity.
Qed.

Lemma filter_skip {A : Type} (f : A -> bool) pre r post :
  f r = false -> filter f (pre ++ r :: post) = filter f (pre ++ post).
Proof. intros H. rewrite !filter_app. cbn [filter]. now rewrite H. Qed.

End ParkingFacts.

Import Parking.

Lemma block_nth {A : Type} (l : list A) k n d :
  (k + n <= length l)%nat ->
  firstn n (skipn k l) = map (fun i => nth (k + i) l d) (seq 0 n).
Proof.
  intros Hlen. apply (nth_ext _ _ d d).
  - rewrite length_firstn, length_skipn, length_map, length_seq. lia.
  - intros i Hi. rewrite length_firstn, length_skipn in Hi.
    rewrite nth_firstn.
    destruct (Nat.ltb_spec i n) as [Hin|Hin]; [|lia].
    rewrite nth_skipn.
    rewrite (nth_indep (map (fun i => nth (k + i) l d) (seq 0 n)) d
                       ((fun i => nth (k + i) l d) 0%nat))
      by (rewrite length_map, length_seq; lia).
    rewrite (map_nth (fun i => nth (k + i) l d)), seq_nth by lia.
    reflexivity.
Qed.

Lemma py_slice_block {A : Type} (l : list A) a b d :
  0 <= a -> a <= b -> b <= Z.of_nat (length l) ->
  py_slice l a b =
  map (fun i => nth (Z.to_nat a + i) l d) (seq 0 (Z.to_nat (b - a))).
Proof.
  intros Ha Hab Hb. unfold py_slice, slice_bound.
  destruct (Z.ltb_spec a 0); [lia|]. destruct (Z.ltb_spec b 0); [lia|].
  rewrite !Z.min_l by lia. apply block_nth. lia.
Qed.

Lemma region_count_pixels (m : Mask) x y w h :
  rectangular m -> in_bounds m (x, y, w, h) = true -> 0 <= w -> 0 <= h ->
  region_count m (x, y, w, h) =
  Z.of_nat (length (active_pixels m (x, y, w, h))).
Proof.
  intros Hrect Hb Hw Hh. unfold in_bounds, mask_shape0, mask_shape1 in Hb.
  unfold region_count, countNonZero, active_pixels, crop. f_equal.
  rewrite (py_slice_block m y (y + h) []) by lia.
  replace (y + h - y) with h by lia. rewrite map_map.
  set (pix := fun p : Z * Z => pixel_at m (fst p) (snd p)).
  assert (E : map (fun j => py_slice (nth (Z.to_nat y + j) m []) x (x + w))
                  (seq 0 (Z.to_nat h)) =
              map (fun j => map pix (map (fun i => (x + Z.of_nat i, y + Z.of_nat j))
                                         (seq 0 (Z.to_nat w))))
                  (seq 0 (Z.to_nat h))).
  { apply map_ext_in. intros j Hj. apply in_seq in Hj.
    assert (Hrow : length (nth (Z.to_nat y + j) m []) = length (hd [] m)).
    { unfold rectangular in Hrect. rewrite Forall_nth in Hrect.
      apply Hrect. lia. }
    rewrite (py_slice_block _ x (x + w) 0) by lia.
    replace (x + w - x) with w by lia. rewrite map_map.
    apply map_ext. intros i. unfold pix, pixel_at. cbn [fst snd].
    rewrite !Z2Nat.inj_add, !Nat2Z.id by lia. reflexivity. }
  rewrite E. unfold region_positions.
  rewrite flat_map_concat_map.
  rewrite <- (map_map (fun j => map (fun i => (x + Z.of_nat i, y + Z.of_nat j))
                                    (seq 0 (Z.to_nat w))) (map pix)).
  rewrite <- concat_map, filter_map_swap, length_map. reflexivity.
Qed.

Lemma id_labels_app l l' : id_labels (l ++ l') = id_labels l ++ id_labels l'.
Proof. apply flat_map_app. Qed.

Lemma check_loop_id_labels processed_img threshold ps : forall i img n,
  id_labels (overlay (fst (fold_left (check_space processed_img threshold)
                                     (enumerate_from i ps) (img, n)))) =
  id_labels (overlay img) ++
  map id_label (filter (fun ir => in_bounds processed_img (snd ir))
                       (enumerate_from i ps)).
Proof.
  induction ps as [|r ps IH]; intros i img n;
    cbn [fold_left enumerate_from filter snd].
  - simpl. now rewrite app_nil_r.
  - destruct (in_bounds processed_img r) eqn:Hb.
    + destruct r as [[[x y] w] h]. rewrite check_space_scored by exact Hb.
      rewrite IH. unfold draw; cbn [overlay]. rewrite !id_labels_app.
      cbn [map id_label]. rewrite <- !app_assoc. reflexivity.
    + rewrite check_space_skipped by exact Hb. apply IH.
Qed.

(** C1.  In [check_parking_space], the regions that pass the bounds guard are
    the ones that get a box, and the box is red (occupied) exactly when the
    number of non-zero pixels in the crop is [>= threshold], green (free)
    exactly when it is [< threshold]; the returned counter is the number of
    guarded regions whose count is [< threshold], one per free region.  A count
    equal to the threshold is occupied.  On a rectangular image the count of a
    guarded region of non-negative size is the number of non-zero pixels at the
    positions [x <= px < x + w], [y <= py < y + h]. *)
Theorem check_parking_space_threshold
    (processed_img : Mask) (img : Frame) (ps : list Region) (threshold : Z) :
  snd (check_parking_space processed_img img ps threshold) =
    Z.of_nat (length (filter (is_free processed_img threshold) ps))
  /\ boxes (overlay (fst (check_parking_space processed_img img ps threshold))) =
     boxes (overlay img) ++
     map (box_of processed_img threshold) (filter (in_bounds processed_img) ps)
  /\ (forall r, is_free processed_img threshold r =
                in_bounds processed_img r &&
                (region_count processed_img r <? threshold))
  /\ (forall count, occupied count threshold = (count >=? threshold))
  /\ occupied threshold threshold = true
  /\ (rectangular processed_img ->
      forall x y w h,
        in_bounds processed_img (x, y, w, h) = true -> 0 <= w -> 0 <= h ->
        region_count processed_img (x, y, w, h) =
        Z.of_nat (length (active_pixels processed_img (x, y, w, h)))).
Proof.
  split; [|split; [|split; [|split; [|split]]]].
  - unfold check_parking_space, enumerate. rewrite check_loop_counter. lia.
  - unfold check_parking_space, enumerate. apply check_loop_boxes.
  - intros r. unfold is_free. rewrite occupied_not_below.
    now rewrite negb_involutive.
  - intros count. unfold occupied. now rewrite Z.geb_leb.
  - unfold occupied. apply Z.leb_refl.
  - intros Hrect x y w h. now apply region_count_pixels.
Qed.

Lemma check_parking_space_threshold_witness :
  region_count sample_mask (1, 1, 2, 2) =
    Z.of_nat (length (active_pixels sample_mask (1, 1, 2, 2))) /\
  active_pixels sample_mask (1, 1, 2, 2) = [(1, 1); (2, 1); (1, 2); (2, 2)].
Proof.
  destruct (check_parking_space_threshold sample_mask (blank_frame 4 4) [] 4)
    as (_ & _ & _ & _ & _ & Hpix).
  split; [|reflexivity].
  apply Hpix.
  - repeat constructor.
  - reflexivity.
  - lia.
  - lia.
Defined.

(** On a concrete image: of two guarded regions, the one holding four active
    pixels is occupied at threshold 4 and the empty one is free. *)
Example check_parking_space_threshold_sample :
  snd (check_parking_space sample_mask (blank_frame 4 4)
         [(1, 1, 2, 2); (0, 0, 1, 1)] 4) = 1 /\
  boxes (overlay (fst (check_parking_space sample_mask (blank_frame 4 4)
                         [(1, 1, 2, 2); (0, 0, 1, 1)] 4))) =
  [((1, 1), (3, 3), red); ((0, 0), (1, 1), green)].
Proof. split; reflexivity. Qed.

(** C8.  A well-formed region none of whose pixels lies in the frame is
    skipped by [check_parking_space]: the loop goes on from the state reached
    before it, so nothing is drawn for it, and counter, boxes and count labels
    are those of the list without the region, and the ID labels are those of
    the other regions under their own indices.  No library call is made for
    it, so nothing can be raised. *)
Theorem check_parking_space_outside
    (processed_img : Mask) (img : Frame) (threshold : Z)
    (pre post : list Region) (x y w h : Z) :
  0 < w -> 0 < h ->
  (forall px py, region_pixel (x, y, w, h) px py ->
                 ~ frame_pixel processed_img px py) ->
  check_parking_space processed_img img (pre ++ (x, y, w, h) :: post) threshold =
    fold_left (check_space processed_img threshold)
              (enumerate_from (Z.of_nat (length pre) + 1) post)
              (check_parking_space processed_img img pre threshold)
  /\ snd (check_parking_space processed_img img (pre ++ (x, y, w, h) :: post)
            threshold) =
     snd (check_parking_space processed_img img (pre ++ post) threshold)
  /\ boxes (overlay (fst (check_parking_space processed_img img
                            (pre ++ (x, y, w, h) :: post) threshold))) =
     boxes (overlay (fst (check_parking_space processed_img img
                            (pre ++ post) threshold)))
  /\ count_labels (overlay (fst (check_parking_space processed_img img
                                   (pre ++ (x, y, w, h) :: post) threshold))) =
     count_labels (overlay (fst (check_parking_space processed_img img
                                   (pre ++ post) threshold)))
  /\ id_labels (overlay (fst (check_parking_space processed_img img
                                (pre ++ (x, y, w, h) :: post) threshold))) =
     id_labels (overlay img) ++
     map id_label
         (filter (fun ir => in_bounds processed_img (snd ir))
                 (enumerate pre ++
                  enumerate_from (Z.of_nat (length pre) + 1) post)).
Proof.
  intros Hw Hh Hout.
  assert (Hb : in_bounds processed_img (x, y, w, h) = false).
  { destruct (in_bounds processed_img (x, y, w, h)) eqn:E; [|reflexivity].
    exfalso. apply (Hout x y).
    - simpl. lia.
    - unfold in_bounds in E. unfold frame_pixel. lia. }
  assert (Hf : is_free processed_img threshold (x, y, w, h) = false)
    by (unfold is_free; now rewrite Hb).
  split; [now apply check_parking_space_skip|].
  unfold check_parking_space, enumerate.
  rewrite !check_loop_counter, !check_loop_boxes, !check_loop_count_labels.
  rewrite (filter_skip (is_free processed_img threshold)) by exact Hf.
  rewrite (filter_skip (in_bounds processed_img)) by exact Hb.
  rewrite check_loop_id_labels, enumerate_from_app. cbn [enumerate_from].
  rewrite (filter_skip (fun ir => in_bounds processed_img (snd ir)))
    by exact Hb.
  repeat split.
Qed.

Lemma check_parking_space_outside_witness :
  let ps : list Region := [(1, 1, 2, 2)] ++ (10, 10, 2, 2) :: [(0, 0, 1, 1)] in
  snd (check_parking_space sample_mask (blank_frame 4 4) ps 4) = 1 /\
  boxes (overlay (fst (check_parking_space sample_mask (blank_frame 4 4) ps 4)))
  = [((1, 1), (3, 3), red); ((0, 0), (1, 1), green)].
Proof.
  intros ps.
  destruct (check_parking_space_outside sample_mask (blank_frame 4 4) 4
              [(1, 1, 2, 2)] [(0, 0, 1, 1)] 10 10 2 2) as (_ & Hc & Hb & _).
  - lia.
  - lia.
  - intros px py. unfold region_pixel, frame_pixel, mask_shape0, mask_shape1.
    simpl. lia.
  - subst ps. split.
    + eapply eq_trans; [exact Hc | reflexivity].
    + eapply eq_trans; [exact Hb | reflexivity].
Defined.

(** C10.  The guard of [check_parking_space] is [y >= 0], [x >= 0],
    [y + h < height] and [x + w < width]: an iteration changes the state only
    under it.  A region that touches the bottom or right edge of the frame
    ([y + h = height] or [x + w = width]) therefore fails the guard and is
    skipped like a region outside the frame, also when it lies wholly inside
    the frame. *)
Theorem check_parking_space_far_edge
    (processed_img : Mask) (img : Frame) (threshold : Z)
    (pre post : list Region) (x y w h : Z) :
  y + h = mask_shape0 processed_img \/ x + w = mask_shape1 processed_img ->
  (0 <= x -> 0 <= y ->
   x + w <= mask_shape1 processed_img -> y + h <= mask_shape0 processed_img ->
   forall px py, region_pixel (x, y, w, h) px py ->
                 frame_pixel processed_img px py)
  /\ (forall i n img', check_space processed_img threshold (img', n)
                                   (i, (x, y, w, h)) = (img', n))
  /\ check_parking_space processed_img img (pre ++ (x, y, w, h) :: post)
       threshold =
     fold_left (check_space processed_img threshold)
               (enumerate_from (Z.of_nat (length pre) + 1) post)
               (check_parking_space processed_img img pre threshold)
  /\ snd (check_parking_space processed_img img (pre ++ (x, y, w, h) :: post)
            threshold) =
     snd (check_parking_space processed_img img (pre ++ post) threshold)
  /\ boxes (overlay (fst (check_parking_space processed_img img
                            (pre ++ (x, y, w, h) :: post) threshold))) =
     boxes (overlay (fst (check_parking_space processed_img img
                            (pre ++ post) threshold)))
  /\ (forall i n img' x' y' w' h',
        check_space processed_img threshold (img', n) (i, (x', y', w', h'))
          <> (img', n) ->
        y' >= 0 /\ x' >= 0 /\ y' + h' < mask_shape0 processed_img /\
        x' + w' < mask_shape1 processed_img).
Proof.
  intros Hedge.
  assert (Hb : in_bounds processed_img (x, y, w, h) = false).
  { unfold in_bounds.
    destruct Hedge as [E|E]; rewrite E, Z.ltb_irrefl;
      now rewrite ?andb_false_r. }
  split; [|split; [|split; [|split; [|split]]]].
  - intros Hx Hy Hxw Hyh px py Hin. unfold region_pixel in Hin.
    unfold frame_pixel. lia.
  - intros i n img'. now apply check_space_skipped.
  - now apply check_parking_space_skip.
  - unfold check_parking_space, enumerate. rewrite !check_loop_counter.
    rewrite (filter_skip (is_free processed_img threshold)); [reflexivity|].
    unfold is_free. now rewrite Hb.
  - unfold check_parking_space, enumerate. rewrite !check_loop_boxes.
    now rewrite (filter_skip (in_bounds processed_img)) by exact Hb.
  - intros i n img' x' y' w' h' Hchg.
    destruct (in_bounds processed_img (x', y', w', h')) eqn:E.
    + unfold in_bounds in E. lia.
    + exfalso. apply Hchg. now apply check_space_skipped.
Qed.

Lemma check_parking_space_far_edge_witness :
  let ps : list Region := [] ++ (1, 1, 3, 3) :: [(1, 1, 2, 2)] in
  check_space sample_mask 100 (blank_frame 4 4, 0) (0, (1, 1, 3, 3)) =
    (blank_frame 4 4, 0) /\
  snd (check_parking_space sample_mask (blank_frame 4 4) ps 100) = 1 /\
  frame_pixel sample_mask 3 3.
Proof.
  intros ps.
  destruct (check_parking_space_far_edge sample_mask (blank_frame 4 4) 100
              [] [(1, 1, 2, 2)] 1 1 3 3) as (Hpix & Hs & _ & Hc & _).
  - left. reflexivity.
  - subst ps. split; [apply Hs|]. split.
    + eapply eq_trans; [exact Hc | reflexivity].
    + apply Hpix.
      * lia.
      * lia.
      * unfold mask_shape1. simpl. lia.
      * unfold mask_shape0. simpl. lia.
      * unfold region_pixel. lia.
Defined.

(** * Properties of the trackers *)

Import Counting.

(** ** The band and the line *)

Lemma in_band_spec line_y offset c :
  in_band line_y offset c = true <-> crossing_band line_y offset (snd c).
Proof. unfold in_band, crossing_band. lia. Qed.

Lemma in_band_false line_y offset c :
  in_band line_y offset c = false <-> ~ crossing_band line_y offset (snd c).
Proof. unfold in_band, crossing_band. lia. Qed.

Lemma clamped_line_code line_height frame_height :
  (if line_height >=? frame_height then frame_height - 50 else line_height) =
  clamped_line line_height frame_height.
Proof. unfold clamped_line. now rewrite Z.geb_leb. Qed.

Lemma clamped_line_idem line_height frame_height :
  clamped_line (clamped_line line_height frame_height) frame_height =
  clamped_line line_height frame_height.
Proof.
  unfold clamped_line.
  destruct (Z.leb_spec frame_height line_height) as [H|H].
  - destruct (Z.leb_spec frame_height (frame_height - 50)); [lia|reflexivity].
  - destruct (Z.leb_spec frame_height line_height); [lia|reflexivity].
Qed.

(** ** Motion-based tracker *)

Section MotionFacts.

Variable boundingRects : Frame -> Frame -> list Region.

Lemma contour_step_eq mw mh frame pool c :
  contour_step mw mh (frame, pool) c =
  if contour_valid mw mh c
  then (let '(x, y, w, h) := c in
        draw (Circle (contour_centroid c) 5 (0, 255, 0) (-1))
          (draw (Rectangle (x - 10, y - 10) (x + w + 10, y + h + 10)
                           (255, 0, 0) 2) frame),
        pool ++ [contour_centroid c])
  else (frame, pool).
Proof.
  destruct c as [[[x y] w] h]. unfold contour_step, contour_valid.
  rewrite !Z.geb_leb. now destruct ((mw <=? w) && (mh <=? h)).
Qed.

Lemma crossing_step_eq line_y offset n remaining c :
  crossing_step line_y offset (n, remaining) c =
  if in_band line_y offset c then (n + 1, remaining)
  else (n, remaining ++ [c]).
Proof. destruct c as [x y]. reflexivity. Qed.

Lemma contour_loop_pool mw mh contours : forall frame pool,
  snd (fold_left (contour_step mw mh) contours (frame, pool)) =
  pool ++ map contour_centroid (filter (contour_valid mw mh) contours).
Proof.
  induction contours as [|c cs IH]; intros frame pool; cbn [fold_left filter].
  - simpl. now rewrite app_nil_r.
  - rewrite contour_step_eq. destruct (contour_valid mw mh c).
    + rewrite IH. cbn [map]. now rewrite <- app_assoc.
    + apply IH.
Qed.

Lemma contour_loop_frame mw mh contours : forall frame pool,
  exists ops,
    fst (fold_left (contour_step mw mh) contours (frame, pool)) =
    mkFrame (shape0 frame) (shape1 frame) (pixels frame) (overlay frame ++ ops).
Proof.
  induction contours as [|c cs IH]; intros frame pool; cbn [fold_left].
  - exists []. destruct frame; simpl. now rewrite app_nil_r.
  - rewrite contour_step_eq. destruct (contour_valid mw mh c).
    2: apply IH.
    + destruct c as [[[x y] w] h].
      match goal with
      | |- context [fold_left _ cs (?f, ?p)] => destruct (IH f p) as [ops E]
      end.
      rewrite E. unfold draw; cbn [shape0 shape1 pixels overlay].
      eexists. rewrite <- !app_assoc. reflexivity.
Qed.

Lemma crossing_loop line_y offset pool : forall n remaining,
  fold_left (crossing_step line_y offset) pool (n, remaining) =
  (n + Z.of_nat (length (filter (in_band line_y offset) pool)),
   remaining ++ filter (fun c => negb (in_band line_y offset c)) pool).
Proof.
  induction pool as [|c pool IH]; intros n remaining; cbn [fold_left filter].
  - rewrite app_nil_r. f_equal. simpl. lia.
  - rewrite crossing_step_eq.
    destruct (in_band line_y offset c); rewrite IH; cbn [negb length].
    + f_equal. lia.
    + f_equal. now rewrite <- app_assoc.
Qed.

Lemma detect_vehicles_traditional_spec frame1 frame2 mw mh line_height offset
    matches vehicle_counter :
  let line_y := clamped_line line_height (shape0 frame1) in
  let pool := combined_pool boundingRects frame1 frame2 mw mh matches in
  let res := detect_vehicles_traditional boundingRects frame1 frame2 mw mh
               line_height offset matches vehicle_counter in
  snd res = vehicle_counter + Z.of_nat (length (filter (in_band line_y offset) pool))
  /\ snd (fst res) = filter (fun c => negb (in_band line_y offset c)) pool
  /\ exists ops,
       overlay (fst (fst res)) =
       overlay frame1 ++
       Line (0, line_y) (shape1 frame1, line_y) (0, 255, 0) 2 :: ops.
Proof.
  intros line_y pool res. subst res. unfold detect_vehicles_traditional.
  rewrite clamped_line_code. fold line_y.
  pose proof (contour_loop_pool mw mh (boundingRects frame1 frame2)
    (draw (Line (0, line_y) (shape1 frame1, line_y) (0, 255, 0) 2) frame1)
    matches) as Hp.
  destruct (contour_loop_frame mw mh (boundingRects frame1 frame2)
    (draw (Line (0, line_y) (shape1 frame1, line_y) (0, 255, 0) 2) frame1)
    matches) as [ops Hf].
  destruct (fold_left (contour_step mw mh) _ _) as [frame' new_matches].
  cbn [fst snd] in Hp, Hf. subst new_matches. fold pool.
  rewrite crossing_loop. cbn [fst snd app].
  repeat split.
  rewrite Hf. unfold draw; cbn [overlay shape0 shape1 pixels].
  eexists. rewrite <- !app_assoc. cbn [app]. reflexivity.
Qed.

End MotionFacts.

(** ** Detector-based tracker *)

Lemma centroid_eqb_eq a b : centroid_eqb a b = true <-> a = b.
Proof.
  destruct a as [ax ay], b as [bx by']. unfold centroid_eqb; cbn [fst snd].
  rewrite andb_true_iff, !Z.eqb_eq. split.
  - intros [-> ->]. reflexivity.
  - intros E. inversion E. auto.
Qed.

Lemma mem_spec c pool : mem c pool = true <-> In c pool.
Proof.
  unfold mem. rewrite existsb_exists. split.
  - intros (m & Hm & E). apply centroid_eqb_eq in E. now subst.
  - intros H. exists c. split; [exact H|]. now apply centroid_eqb_eq.
Qed.

Lemma near_spec m c : near m c = true <-> dist2 m c < 2500.
Proof. unfold near, dist2. apply Z.ltb_lt. Qed.

Lemma near_self c : near c c = true.
Proof. apply near_spec. unfold dist2. lia. Qed.

(** *** The counting pass *)

Lemma count_new_grows line_y offset current : forall pool n,
  exists added,
    fst (count_new line_y offset current pool n) = pool ++ added /\
    snd (count_new line_y offset current pool n) = n + Z.of_nat (length added) /\
    Forall (fun c => In c current /\ crossing_band line_y offset (snd c) /\
                     ~ In c pool) added.
Proof.
  induction current as [|c rest IH]; intros pool n; cbn [count_new].
  - exists []. rewrite app_nil_r. cbn [fst snd length].
    split; [reflexivity|]. split; [lia | constructor].
  - destruct (in_band line_y offset c && negb (mem c pool)) eqn:E.
    + apply andb_true_iff in E. destruct E as [Hb Hm].
      apply in_band_spec in Hb. apply negb_true_iff in Hm.
      destruct (IH (pool ++ [c]) (n + 1)) as (added & Hf & Hs & Ha).
      exists (c :: added). rewrite Hf, Hs, <- app_assoc. cbn [app length].
      split; [reflexivity|]. split; [lia|]. constructor.
      * split; [now left|]. split; [exact Hb|].
        intros Hin. apply mem_spec in Hin. congruence.
      * eapply Forall_impl; [|exact Ha]. cbn beta.
        intros a (H1 & H2 & H3). split; [now right|]. split; [exact H2|].
        intros Hin. apply H3. apply in_or_app. now left.
    + destruct (IH pool n) as (added & Hf & Hs & Ha).
      exists added. split; [exact Hf|]. split; [exact Hs|].
      eapply Forall_impl; [|exact Ha]. cbn beta.
      intros a (H1 & H2 & H3). split; [now right|]. split; assumption.
Qed.

Lemma count_new_keeps line_y offset current : forall pool n m,
  In m pool -> In m (fst (count_new line_y offset current pool n)).
Proof.
  intros pool n m Hin.
  destruct (count_new_grows line_y offset current pool n) as (added & -> & _).
  apply in_or_app. now left.
Qed.

(** After the pass, every current centroid in the band is in the pool. *)
Lemma count_new_covers line_y offset current : forall pool n c,
  In c current -> crossing_band line_y offset (snd c) ->
  In c (fst (count_new line_y offset current pool n)).
Proof.
  induction current as [|a rest IH]; intros pool n c Hin Hb; [easy|].
  cbn [count_new]. destruct Hin as [->|Hin].
  - apply in_band_spec in Hb. rewrite Hb. cbn [andb].
    destruct (mem c pool) eqn:Hm; cbn [negb].
    + apply count_new_keeps. now apply mem_spec.
    + apply count_new_keeps. apply in_or_app. right. now left.
  - destruct (in_band line_y offset a && negb (mem a pool)); now apply IH.
Qed.

(** If every current centroid in the band is already in the pool, the pass
    changes nothing. *)
Lemma count_new_known line_y offset current : forall pool n,
  (forall c, In c current -> crossing_band line_y offset (snd c) -> In c pool) ->
  count_new line_y offset current pool n = (pool, n).
Proof.
  induction current as [|a rest IH]; intros pool n H; [reflexivity|].
  cbn [count_new].
  destruct (in_band line_y offset a) eqn:Hb; cbn [andb].
  - assert (Hm : mem a pool = true).
    { apply mem_spec. apply H; [now left | now apply in_band_spec]. }
    rewrite Hm. cbn [negb]. apply IH. intros c Hc. apply H. now right.
  - apply IH. intros c Hc. apply H. now right.
Qed.

Lemma counting_loop_pure line_y offset current : forall n frame pool,
  counting_loop line_y offset current n (mkHeap frame pool) =
  Returns (snd (count_new line_y offset current pool n))
          (mkHeap frame (fst (count_new line_y offset current pool n))).
Proof.
  induction current as [|c rest IH]; intros n frame pool;
    cbn [counting_loop count_new]; [reflexivity|].
  unfold in_band.
  destruct ((line_y - offset <? snd c) && (snd c <? line_y + offset));
    cbn [andb]; [|apply IH].
  unfold bind, read_matches, append_match; cbn [h_matches h_frame].
  destruct (mem c pool); cbn [negb]; apply IH.
Qed.

(** *** The whole call *)

Section DetectorFacts.

Variable Score : Type.
Variable format_score : Score -> string.
Variable cv_raises : DrawOp -> bool.

Lemma extends_refl f : extends f f [].
Proof. unfold extends. destruct f; simpl. now rewrite app_nil_r. Qed.

Lemma extends_draw f' f ops op :
  extends f' f ops -> extends (draw op f') f (ops ++ [op]).
Proof.
  unfold extends. intros ->. unfold draw; simpl. now rewrite app_assoc.
Qed.

(** The detection loop only draws: it never touches the pool, whether it
    completes or raises, and on completion it has collected the midpoints. *)
Lemma detection_loop_inv cls detections : forall acc h,
  match detection_loop format_score cv_raises cls detections acc h with
  | Returns cs h' =>
      cs = acc ++ map centroid_of detections /\
      h_matches h' = h_matches h /\
      exists ops, extends (h_frame h') (h_frame h) ops
  | Raises _ h' => h_matches h' = h_matches h
  end.
Proof.
  induction detections as [|d rest IH]; intros acc h.
  - cbn [detection_loop]. unfold ret. rewrite app_nil_r.
    repeat split. exists []. apply extends_refl.
  - destruct d as [[[[[x1 y1] x2] y2] score] label].
    cbn [detection_loop map centroid_of].
    unfold bind at 1. unfold cv at 1.
    destruct (cv_raises (Rectangle _ _ _ _)); [reflexivity|].
    unfold bind at 1. unfold cv at 1. cbn [h_frame h_matches].
    destruct (cv_raises (Circle _ _ _ _)); [reflexivity|].
    unfold bind at 1. unfold index_classes.
    destruct (py_index cls label) as [name|]; [|reflexivity].
    unfold ret at 1. unfold bind at 1. unfold cv at 1.
    cbn [h_frame h_matches].
    destruct (cv_raises (PutText _ _ _ _)); [reflexivity|].
    match goal with
    | |- context [detection_loop _ _ _ rest ?a ?h0] =>
        specialize (IH a h0); destruct (detection_loop _ _ _ rest a h0)
    end.
    + destruct IH as (-> & Hm & ops & Hf). cbn [h_matches h_frame] in Hm, Hf.
      rewrite <- app_assoc. repeat split; [exact Hm|].
      eexists. unfold extends in *. rewrite Hf. unfold draw; simpl.
      rewrite <- !app_assoc. reflexivity.
    + exact IH.
Qed.

(** The call, one library call after the other. *)
Lemma detect_vehicles_ml_cases frame ml_detector matches vehicle_counter
    line_height offset :
  detect_vehicles_ml format_score cv_raises frame ml_detector
    matches vehicle_counter line_height offset =
  let line_y := clamped_line line_height (shape0 frame) in
  let line := Line (0, line_y) (shape1 frame, line_y) (0, 255, 0) 2 in
  match detect_vehicles ml_detector frame with
  | inl e => mkResult frame matches vehicle_counter (Some e) matches
  | inr detections =>
      if cv_raises line
      then mkResult frame matches vehicle_counter (Some (CvError line)) matches
      else
        match detection_loop format_score cv_raises (classes ml_detector)
                detections [] (mkHeap (draw line frame) matches) with
        | Raises e h =>
            mkResult (h_frame h) (h_matches h) vehicle_counter (Some e)
                     (h_matches h)
        | Returns current h =>
            let pool := fst (count_new line_y offset current (h_matches h)
                                       vehicle_counter) in
            let new_counter := snd (count_new line_y offset current
                                              (h_matches h) vehicle_counter) in
            let label := PutTextRect ("Vehicle Count: " ++ str new_counter)
                                     (10, 30) 2 2 10 (0, 200, 0) in
            if cv_raises label
            then mkResult (h_frame h) pool vehicle_counter
                          (Some (CvError label)) pool
            else mkResult (draw label (h_frame h))
                          (filter (fun m => existsb (fun c => near m c) current)
                                  pool)
                          new_counter None pool
        end
  end.
Proof.
  cbn zeta. unfold detect_vehicles_ml, try_block.
  unfold bind, read_frame, read_matches, call, cv, ret, raise.
  cbn [h_frame h_matches]. rewrite clamped_line_code.
  destruct (detect_vehicles ml_detector frame) as [e|detections];
    [reflexivity|].
  destruct (cv_raises (Line _ _ _ _)); [reflexivity|].
  destruct (detection_loop _ _ _ detections [] _) as [current [f1 p1]|e h1];
    [|reflexivity].
  rewrite counting_loop_pure. cbn [h_frame h_matches].
  destruct (cv_raises (PutTextRect _ _ _ _ _ _)); reflexivity.
Qed.

(** Every way the call can end.  Either it returns normally, and counter and
    pools are those of the counting pass over the midpoints, the returned
    pool being pruned; or an exception was caught, the counter is the one
    passed in and the returned pool is the caller's list as it stands, which
    is the carried pool unless the counting pass had already run. *)
Lemma detect_vehicles_ml_outcome frame ml_detector matches vehicle_counter
    line_height offset :
  let res := detect_vehicles_ml format_score cv_raises frame ml_detector
               matches vehicle_counter line_height offset in
  let line_y := clamped_line line_height (shape0 frame) in
  match printed res with
  | None =>
      exists detections,
        detect_vehicles ml_detector frame = inr detections /\
        let current := map centroid_of detections in
        ret_counter res = snd (count_new line_y offset current matches
                                         vehicle_counter) /\
        arg_matches res = fst (count_new line_y offset current matches
                                         vehicle_counter) /\
        ret_matches res =
          filter (fun m => existsb (fun c => near m c) current)
                 (arg_matches res) /\
        exists ops,
          overlay (ret_frame res) =
          overlay frame ++
          Line (0, line_y) (shape1 frame, line_y) (0, 255, 0) 2 :: ops
  | Some _ =>
      ret_counter res = vehicle_counter /\
      ret_matches res = arg_matches res /\
      (arg_matches res = matches \/
       exists detections,
         detect_vehicles ml_detector frame = inr detections /\
         arg_matches res =
           fst (count_new line_y offset (map centroid_of detections) matches
                          vehicle_counter))
  end.
Proof.
  intros res line_y. subst res. rewrite detect_vehicles_ml_cases.
  cbn zeta. fold line_y.
  destruct (detect_vehicles ml_detector frame) as [e|detections] eqn:Hd.
  { cbn. split; [reflexivity|]. split; [reflexivity|]. now left. }
  destruct (cv_raises (Line _ _ _ _)).
  { cbn. split; [reflexivity|]. split; [reflexivity|]. now left. }
  match goal with
  | |- context [detection_loop _ _ ?cls detections [] ?h0] =>
      pose proof (detection_loop_inv cls detections [] h0) as Hl;
      destruct (detection_loop _ _ cls detections [] h0) as [cs h1|e h1]
  end.
  2:{ cbn [printed ret_counter ret_matches arg_matches].
      split; [reflexivity|]. split; [reflexivity|]. now left. }
  destruct Hl as (-> & Hm & ops & Hf). cbn [app h_matches h_frame] in Hm, Hf.
  rewrite Hm.
  destruct (cv_raises (PutTextRect _ _ _ _ _ _)).
  { cbn [printed ret_counter ret_matches arg_matches].
    split; [reflexivity|]. split; [reflexivity|]. right.
    exists detections. split; reflexivity. }
  cbn [printed ret_counter ret_matches arg_matches ret_frame].
  exists detections. split; [reflexivity|]. cbn zeta.
  split; [reflexivity|]. split; [reflexivity|]. split; [reflexivity|].
  unfold extends in Hf. rewrite Hf. unfold draw; cbn [overlay].
  eexists. rewrite <- !app_assoc. cbn [app]. reflexivity.
Qed.



End DetectorFacts.

(** * The claims about the trackers *)

Lemma track_traditional_carries boundingRects stream mw mh line_height offset c :
  forall matches vehicle_counter,
  Forall (fun ff : Frame * Frame =>
            ~ crossing_band (clamped_line line_height (shape0 (fst ff))) offset
                            (snd c)) stream ->
  In c matches ->
  In c (fst (track_traditional boundingRects stream mw mh line_height offset
               matches vehicle_counter)).
Proof.
  induction stream as [|[f1 f2] rest IH]; intros matches n Hs Hin;
    cbn [track_traditional]; [exact Hin|].
  inversion Hs as [|? ? Hout Hrest]; subst. cbn [fst] in Hout.
  destruct (detect_vehicles_traditional_spec boundingRects f1 f2 mw mh
              line_height offset matches n) as (_ & Hp & _).
  destruct (detect_vehicles_traditional _ _ _ _ _ _ _ _ _)
    as [[frame' remaining] counter']. cbn [fst snd] in Hp.
  apply IH; [exact Hrest|]. rewrite Hp. apply filter_In. split.
  - unfold combined_pool. apply in_or_app. now left.
  - apply negb_true_iff. now apply in_band_false.
Qed.

(** C3.  One call of [detect_vehicles_traditional] adds to the counter the
    number of centroids of the combined pool (carried centroids, then the
    centroids of this frame's size-valid contours) whose [y] is strictly
    inside the band around the clamped line.  No centroid inside the band is
    in the returned pool, and every centroid of the combined pool outside the
    band is; over any stream of frames on which the band never contains it, a
    carried centroid stays in the pool. *)
Theorem detect_vehicles_traditional_counts
    (boundingRects : Frame -> Frame -> list Region) (frame1 frame2 : Frame)
    (min_contour_width min_contour_height line_height offset : Z)
    (matches : list Centroid) (vehicle_counter : Z) :
  let line_y := clamped_line line_height (shape0 frame1) in
  let pool := combined_pool boundingRects frame1 frame2
                min_contour_width min_contour_height matches in
  let res := detect_vehicles_traditional boundingRects frame1 frame2
               min_contour_width min_contour_height line_height offset
               matches vehicle_counter in
  snd res =
    vehicle_counter + Z.of_nat (length (filter (in_band line_y offset) pool))
  /\ (forall c, in_band line_y offset c = true <->
                line_y - offset < snd c /\ snd c < line_y + offset)
  /\ (forall c, crossing_band line_y offset (snd c) -> ~ In c (snd (fst res)))
  /\ (forall c, In c pool -> ~ crossing_band line_y offset (snd c) ->
                In c (snd (fst res)))
  /\ (forall c, In c (snd (fst res)) -> In c pool)
  /\ (forall stream c n,
        Forall (fun ff : Frame * Frame =>
                  ~ crossing_band (clamped_line line_height (shape0 (fst ff)))
                                  offset (snd c)) stream ->
        In c matches ->
        In c (fst (track_traditional boundingRects stream
                     min_contour_width min_contour_height line_height offset
                     matches n))).
Proof.
  intros line_y pool res.
  destruct (detect_vehicles_traditional_spec boundingRects frame1 frame2
              min_contour_width min_contour_height line_height offset
              matches vehicle_counter) as (Hc & Hp & _).
  fold line_y pool res in Hc, Hp.
  split; [exact Hc|]. split; [intros c; apply in_band_spec|].
  split; [|split; [|split]].
  - intros c Hb Hin. rewrite Hp in Hin. apply filter_In in Hin.
    destruct Hin as [_ Hn]. apply negb_true_iff in Hn.
    apply in_band_false in Hn. contradiction.
  - intros c Hin Hb. rewrite Hp. apply filter_In. split; [exact Hin|].
    apply negb_true_iff. now apply in_band_false.
  - intros c Hin. rewrite Hp in Hin. apply filter_In in Hin. tauto.
  - intros stream c n. apply track_traditional_carries.
Qed.

Lemma detect_vehicles_traditional_counts_witness :
  let res := detect_vehicles_traditional one_blob (blank_frame 480 640)
               (blank_frame 480 640) 40 40 400 10 [(5, 400); (7, 100)] 0 in
  snd res = 1 /\ ~ In (5, 400) (snd (fst res)) /\ In (7, 100) (snd (fst res)) /\
  In (120, 220) (snd (fst res)).
Proof.
  intros res.
  destruct (detect_vehicles_traditional_counts one_blob (blank_frame 480 640)
              (blank_frame 480 640) 40 40 400 10 [(5, 400); (7, 100)] 0)
    as (Hc & _ & Hin & Hout & _).
  split; [exact Hc|]. split; [|split].
  - apply Hin. unfold crossing_band. simpl. lia.
  - apply Hout.
    + simpl. auto.
    + unfold crossing_band. simpl. lia.
  - apply Hout.
    + simpl. auto.
    + unfold crossing_band. simpl. lia.
Defined.

(** C9.  Neither tracker lowers the counter.  The motion tracker returns the
    counter plus one per pool centroid in the band; the detector tracker
    returns, on a normal return, the counter plus one per centroid it appended
    to the pool, and the counter itself when an exception was caught. *)
Theorem vehicle_counter_monotone
    (boundingRects : Frame -> Frame -> list Region)
    (Score : Type) (format_score : Score -> string)
    (cv_raises : DrawOp -> bool)
    (frame1 frame2 : Frame) (ml_detector : MLDetector Score)
    (min_contour_width min_contour_height line_height offset : Z)
    (matches : list Centroid) (vehicle_counter : Z) :
  let res := detect_vehicles_traditional boundingRects frame1 frame2
               min_contour_width min_contour_height line_height offset
               matches vehicle_counter in
  let ml := detect_vehicles_ml format_score cv_raises frame1 ml_detector
              matches vehicle_counter line_height offset in
  vehicle_counter <= snd res
  /\ snd res = vehicle_counter +
       Z.of_nat (length (filter (in_band (clamped_line line_height
                                                       (shape0 frame1)) offset)
                                (combined_pool boundingRects frame1 frame2
                                   min_contour_width min_contour_height
                                   matches)))
  /\ vehicle_counter <= ret_counter ml
  /\ (printed ml = None ->
      exists added,
        arg_matches ml = matches ++ added /\
        ret_counter ml = vehicle_counter + Z.of_nat (length added))
  /\ (printed ml <> None -> ret_counter ml = vehicle_counter).
Proof.
  intros res ml.
  destruct (detect_vehicles_traditional_spec boundingRects frame1 frame2
              min_contour_width min_contour_height line_height offset
              matches vehicle_counter) as (Hc & _).
  fold res in Hc.
  pose proof (detect_vehicles_ml_outcome Score format_score cv_raises frame1
                ml_detector matches vehicle_counter line_height offset) as Ho.
  cbn zeta in Ho. fold ml in Ho.
  split; [lia|]. split; [exact Hc|].
  destruct (printed ml) as [e|].
  - destruct Ho as (Hn & _). split; [lia|]. split; [discriminate|]. auto.
  - destruct Ho as (detections & _ & Hn & Ha & _).
    destruct (count_new_grows (clamped_line line_height (shape0 frame1)) offset
                (map centroid_of detections) matches vehicle_counter)
      as (added & Hf & Hs & _).
    split; [lia|]. split; [|congruence].
    intros _. exists added. split; congruence.
Qed.

Lemma vehicle_counter_monotone_witness :
  ret_counter (detect_vehicles_ml two_decimals all_calls_succeed
                 (blank_frame 480 640) one_car [] 7 400 10) = 8 /\
  ret_counter (detect_vehicles_ml two_decimals all_calls_succeed
                 (blank_frame 480 640) broken_detector [] 7 400 10) = 7.
Proof.
  destruct (vehicle_counter_monotone one_blob unit two_decimals
              all_calls_succeed (blank_frame 480 640) (blank_frame 480 640)
              one_car 40 40 400 10 [] 7) as (_ & _ & _ & Hn & _).
  destruct (vehicle_counter_monotone one_blob unit two_decimals
              all_calls_succeed (blank_frame 480 640) (blank_frame 480 640)
              broken_detector 40 40 400 10 [] 7) as (_ & _ & _ & _ & He).
  split.
  - destruct Hn as (added & Ha & Hc); [reflexivity|].
    rewrite Hc.
    assert (E : added = [(320, 400)]) by (vm_compute in Ha; congruence).
    rewrite E. reflexivity.
  - apply He. vm_compute. discriminate.
Defined.



(** C7.  Both trackers use, for drawing and for the band, the configured
    line when it is below the frame height and [frame_height - 50] otherwise:
    a call with [line_height] behaves as the call with the clamped value, the
    first thing drawn is the line at the clamped position, and the counter is
    computed with the band around it.  A line height of 1000 on a frame 480
    pixels tall is taken at 430. *)
Theorem counting_line_clamped
    (boundingRects : Frame -> Frame -> list Region)
    (Score : Type) (format_score : Score -> string)
    (cv_raises : DrawOp -> bool)
    (frame1 frame2 : Frame) (ml_detector : MLDetector Score)
    (min_contour_width min_contour_height line_height offset : Z)
    (matches : list Centroid) (vehicle_counter : Z) :
  let line_y := clamped_line line_height (shape0 frame1) in
  let res := detect_vehicles_traditional boundingRects frame1 frame2
               min_contour_width min_contour_height line_height offset
               matches vehicle_counter in
  let ml := detect_vehicles_ml format_score cv_raises frame1 ml_detector
              matches vehicle_counter line_height offset in
  (shape0 frame1 <= line_height -> line_y = shape0 frame1 - 50)
  /\ (line_height < shape0 frame1 -> line_y = line_height)
  /\ clamped_line 1000 480 = 430
  /\ res = detect_vehicles_traditional boundingRects frame1 frame2
             min_contour_width min_contour_height line_y offset
             matches vehicle_counter
  /\ (exists ops, overlay (fst (fst res)) =
                  overlay frame1 ++
                  Line (0, line_y) (shape1 frame1, line_y) (0, 255, 0) 2 :: ops)
  /\ snd res = vehicle_counter +
       Z.of_nat (length (filter (in_band line_y offset)
                                (combined_pool boundingRects frame1 frame2
                                   min_contour_width min_contour_height
                                   matches)))
  /\ ml = detect_vehicles_ml format_score cv_raises frame1 ml_detector
            matches vehicle_counter line_y offset
  /\ (printed ml = None ->
      exists detections ops,
        detect_vehicles ml_detector frame1 = inr detections /\
        overlay (ret_frame ml) =
          overlay frame1 ++
          Line (0, line_y) (shape1 frame1, line_y) (0, 255, 0) 2 :: ops /\
        ret_counter ml = snd (count_new line_y offset
                                (map centroid_of detections) matches
                                vehicle_counter)).
Proof.
  intros line_y res ml.
  destruct (detect_vehicles_traditional_spec boundingRects frame1 frame2
              min_contour_width min_contour_height line_height offset
              matches vehicle_counter) as (Hc & _ & Hl).
  fold line_y res in Hc, Hl.
  pose proof (detect_vehicles_ml_outcome Score format_score cv_raises frame1
                ml_detector matches vehicle_counter line_height offset) as Ho.
  cbn zeta in Ho. fold ml line_y in Ho.
  split; [|split; [|split; [|split; [|split; [|split; [|split]]]]]].
  - intros H. subst line_y. unfold clamped_line.
    destruct (Z.leb_spec (shape0 frame1) line_height); [reflexivity|lia].
  - intros H. subst line_y. unfold clamped_line.
    destruct (Z.leb_spec (shape0 frame1) line_height); [lia|reflexivity].
  - reflexivity.
  - subst res line_y. unfold detect_vehicles_traditional.
    rewrite !clamped_line_code, clamped_line_idem. reflexivity.
  - exact Hl.
  - exact Hc.
  - subst ml line_y. rewrite !detect_vehicles_ml_cases. cbn zeta.
    rewrite clamped_line_idem. reflexivity.
  - intros Hn. rewrite Hn in Ho.
    destruct Ho as (detections & Hd & Hcnt & _ & _ & ops & Hops).
    exists detections, ops. auto.
Qed.

Lemma counting_line_clamped_witness :
  detect_vehicles_traditional one_blob (blank_frame 480 640)
    (blank_frame 480 640) 40 40 1000 10 [(5, 430)] 0 =
  detect_vehicles_traditional one_blob (blank_frame 480 640)
    (blank_frame 480 640) 40 40 430 10 [(5, 430)] 0 /\
  clamped_line 1000 (shape0 (blank_frame 480 640)) = 480 - 50 /\
  exists ops,
    overlay (ret_frame (detect_vehicles_ml two_decimals all_calls_succeed
                          (blank_frame 480 640) one_car [] 0 1000 10)) =
    Line (0, 430) (640, 430) (0, 255, 0) 2 :: ops.
Proof.
  destruct (counting_line_clamped one_blob unit two_decimals all_calls_succeed
              (blank_frame 480 640) (blank_frame 480 640) one_car
              40 40 1000 10 [(5, 430)] 0)
    as (Hhi & _ & _ & Heq & _).
  destruct (counting_line_clamped one_blob unit two_decimals all_calls_succeed
              (blank_frame 480 640) (blank_frame 480 640) one_car
              40 40 1000 10 [] 0)
    as (_ & _ & _ & _ & _ & _ & _ & Hml).
  split; [exact Heq|]. split.
  - apply Hhi. simpl. lia.
  - destruct Hml as (detections & ops & _ & Hops & _); [reflexivity|].
    exists ops. exact Hops.
Defined.

Lemma filter_none {A : Type} (l : list A) : filter (fun _ => false) l = [].
Proof. induction l; simpl; auto. Qed.

Lemma near_any_spec m (current : list Centroid) :
  existsb (fun c => near m c) current = true <->
  exists c, In c current /\ dist2 m c < 50 * 50.
Proof.
  rewrite existsb_exists. split; intros (c & Hin & H); exists c;
    (split; [exact Hin|]); apply near_spec; exact H.
Qed.

(** C6.  On a normal return of [detect_vehicles_ml], a carried centroid is in
    the returned pool exactly when some detection of the current frame has its
    midpoint at Euclidean distance below 50 from it, that is at squared
    distance below 2500; a carried centroid with every midpoint at distance 50
    or more is pruned, and with no detection at all the returned pool is
    empty. *)
Theorem stale_centroids_pruned
    (Score : Type) (format_score : Score -> string)
    (cv_raises : DrawOp -> bool)
    (frame : Frame) (ml_detector : MLDetector Score)
    (matches : list Centroid) (vehicle_counter line_height offset : Z) :
  let ml := detect_vehicles_ml format_score cv_raises frame ml_detector
              matches vehicle_counter line_height offset in
  printed ml = None ->
  exists detections,
    detect_vehicles ml_detector frame = inr detections /\
    (forall m, In m matches ->
       (In m (ret_matches ml) <->
        exists d, In d detections /\ dist2 m (centroid_of d) < 50 * 50)) /\
    (forall m, In m matches ->
       (forall d, In d detections -> 50 * 50 <= dist2 m (centroid_of d)) ->
       ~ In m (ret_matches ml)) /\
    (detections = [] -> ret_matches ml = []).
Proof.
  intros ml Hn.
  pose proof (detect_vehicles_ml_outcome Score format_score cv_raises frame
                ml_detector matches vehicle_counter line_height offset) as Ho.
  cbn zeta in Ho. fold ml in Ho. rewrite Hn in Ho.
  destruct Ho as (detections & Hd & _ & Ha & Hr & _).
  exists detections. split; [exact Hd|].
  assert (Hiff : forall m, In m matches ->
            (In m (ret_matches ml) <->
             exists d, In d detections /\ dist2 m (centroid_of d) < 50 * 50)).
  { intros m Hin. rewrite Hr, filter_In, near_any_spec. split.
    - intros (_ & c & Hc & Hlt). apply in_map_iff in Hc.
      destruct Hc as (d & <- & Hd'). now exists d.
    - intros (d & Hd' & Hlt). split.
      + rewrite Ha. now apply count_new_keeps.
      + exists (centroid_of d). split; [now apply in_map|exact Hlt]. }
  split; [exact Hiff|]. split.
  - intros m Hin Hfar Hret. apply Hiff in Hret; [|exact Hin].
    destruct Hret as (d & Hd' & Hlt). specialize (Hfar d Hd'). lia.
  - intros ->. rewrite Hr. cbn [map existsb]. apply filter_none.
Qed.

Lemma stale_centroids_pruned_witness :
  ret_matches (detect_vehicles_ml two_decimals all_calls_succeed
                 (blank_frame 480 640) no_car [(320, 400)] 1 400 10) = [] /\
  ~ In (320, 350) (ret_matches (detect_vehicles_ml two_decimals
                      all_calls_succeed (blank_frame 480 640) one_car
                      [(320, 350); (300, 370)] 1 400 10)) /\
  In (300, 370) (ret_matches (detect_vehicles_ml two_decimals
                    all_calls_succeed (blank_frame 480 640) one_car
                    [(320, 350); (300, 370)] 1 400 10)).
Proof.
  destruct (stale_centroids_pruned unit two_decimals all_calls_succeed
              (blank_frame 480 640) no_car [(320, 400)] 1 400 10)
    as (ds0 & Hd0 & _ & _ & Hempty); [reflexivity|].
  destruct (stale_centroids_pruned unit two_decimals all_calls_succeed
              (blank_frame 480 640) one_car [(320, 350); (300, 370)] 1 400 10)
    as (ds1 & Hd1 & Hiff & Hfar & _); [reflexivity|].
  cbn [one_car no_car detect_vehicles] in Hd0, Hd1.
  injection Hd0 as <-. injection Hd1 as <-.
  split; [now apply Hempty|]. split.
  - apply Hfar; [simpl; auto|].
    intros d [<-|[]]. vm_compute. discriminate.
  - apply Hiff; [simpl; auto|].
    exists (300, 380, 340, 420, tt, 3). split; [now left|].
    vm_compute. reflexivity.
Defined.

(** When every current centroid in the band is already pooled, a call that
    returns normally leaves the counter as it was. *)
Lemma detect_vehicles_ml_second_call
    (Score : Type) (format_score : Score -> string)
    (cv_raises : DrawOp -> bool)
    (frame frame' : Frame) (ml_detector : MLDetector Score)
    (matches : list Centroid) (vehicle_counter line_height offset : Z)
    (detections : list (Detection Score)) :
  let r1 := detect_vehicles_ml format_score cv_raises frame ml_detector
              matches vehicle_counter line_height offset in
  let r2 := detect_vehicles_ml format_score cv_raises frame' ml_detector
              (ret_matches r1) (ret_counter r1) line_height offset in
  detect_vehicles ml_detector frame = inr detections ->
  detect_vehicles ml_detector frame' = inr detections ->
  shape0 frame' = shape0 frame ->
  printed r1 = None -> printed r2 = None ->
  ret_counter r2 = ret_counter r1 /\ arg_matches r2 = ret_matches r1.
Proof.
  intros r1 r2 Hd Hd' Hshape Hn1 Hn2.
  pose proof (detect_vehicles_ml_outcome Score format_score cv_raises frame
                ml_detector matches vehicle_counter line_height offset) as H1.
  pose proof (detect_vehicles_ml_outcome Score format_score cv_raises frame'
                ml_detector (ret_matches r1) (ret_counter r1) line_height
                offset) as H2.
  cbn zeta in H1, H2. fold r1 in H1. fold r1 r2 in H2.
  rewrite Hn1 in H1. rewrite Hn2 in H2. rewrite Hshape in H2.
  destruct H1 as (ds1 & E1 & _ & Ha1 & Hr1 & _).
  destruct H2 as (ds2 & E2 & Hc2 & Ha2 & _).
  rewrite Hd in E1. injection E1 as <-.
  rewrite Hd' in E2. injection E2 as <-.
  rewrite count_new_known in Hc2, Ha2.
  - split; assumption.
  - intros c Hin Hb. rewrite Hr1. apply filter_In. split.
    + rewrite Ha1. now apply count_new_covers.
    + apply existsb_exists. exists c. split; [exact Hin|apply near_self].
  - intros c Hin Hb. rewrite Hr1. apply filter_In. split.
    + rewrite Ha1. now apply count_new_covers.
    + apply existsb_exists. exists c. split; [exact Hin|apply near_self].
Qed.

(** While both calls return normally, the deduplication of
    [detect_vehicles_ml] works for a lone detection: a midpoint already in the
    carried pool, or outside the band, adds nothing to the counter; one in the
    band and not in the pool adds one and is in the returned pool, and the
    same detection in the next call, with the pool and counter the first call
    returned, adds nothing. *)
Theorem same_detection_counted_once
    (Score : Type) (format_score : Score -> string)
    (cv_raises : DrawOp -> bool)
    (frame frame' : Frame) (ml_detector : MLDetector Score)
    (matches : list Centroid) (vehicle_counter line_height offset : Z)
    (d : Detection Score) :
  let line_y := clamped_line line_height (shape0 frame) in
  let r1 := detect_vehicles_ml format_score cv_raises frame ml_detector
              matches vehicle_counter line_height offset in
  let r2 := detect_vehicles_ml format_score cv_raises frame' ml_detector
              (ret_matches r1) (ret_counter r1) line_height offset in
  detect_vehicles ml_detector frame = inr [d] ->
  detect_vehicles ml_detector frame' = inr [d] ->
  shape0 frame' = shape0 frame ->
  printed r1 = None -> printed r2 = None ->
  (In (centroid_of d) matches -> ret_counter r1 = vehicle_counter)
  /\ (~ crossing_band line_y offset (snd (centroid_of d)) ->
      ret_counter r1 = vehicle_counter)
  /\ (crossing_band line_y offset (snd (centroid_of d)) ->
      ~ In (centroid_of d) matches ->
      ret_counter r1 = vehicle_counter + 1 /\
      In (centroid_of d) (ret_matches r1) /\
      ret_counter r2 = vehicle_counter + 1)
  /\ ret_counter r2 = ret_counter r1.
Proof.
  intros line_y r1 r2 Hd Hd' Hshape Hn1 Hn2.
  destruct (detect_vehicles_ml_second_call Score format_score cv_raises
              frame frame' ml_detector matches vehicle_counter line_height
              offset [d] Hd Hd' Hshape Hn1 Hn2) as (Hsame & _).
  fold r1 r2 in Hsame.
  pose proof (detect_vehicles_ml_outcome Score format_score cv_raises frame
                ml_detector matches vehicle_counter line_height offset) as H1.
  cbn zeta in H1. fold r1 line_y in H1. rewrite Hn1 in H1.
  destruct H1 as (ds1 & E1 & Hc1 & Ha1 & Hr1 & _).
  rewrite Hd in E1. injection E1 as <-. cbn [map count_new] in Hc1, Ha1, Hr1.
  split; [|split; [|split]].
  - intros Hin. apply mem_spec in Hin. rewrite Hin in Hc1.
    rewrite andb_false_r in Hc1. exact Hc1.
  - intros Hout. apply in_band_false in Hout. rewrite Hout in Hc1. exact Hc1.
  - intros Hb Hnew. apply in_band_spec in Hb.
    assert (Hm : mem (centroid_of d) matches = false).
    { apply not_true_is_false. intros H. apply Hnew. now apply mem_spec. }
    rewrite Hb, Hm in Hc1, Ha1. cbn [andb negb fst snd] in Hc1, Ha1.
    split; [exact Hc1|]. split; [|congruence].
    rewrite Hr1, Ha1. apply filter_In. split.
    + apply in_or_app. right. now left.
    + cbn [existsb]. now rewrite near_self.
  - exact Hsame.
Qed.

Lemma same_detection_counted_once_witness :
  let r1 := detect_vehicles_ml two_decimals all_calls_succeed
              (blank_frame 480 640) one_car [] 0 400 10 in
  let r2 := detect_vehicles_ml two_decimals all_calls_succeed
              (blank_frame 480 640) one_car (ret_matches r1) (ret_counter r1)
              400 10 in
  ret_counter r1 = 1 /\ In (320, 400) (ret_matches r1) /\ ret_counter r2 = 1.
Proof.
  intros r1 r2.
  destruct (same_detection_counted_once unit two_decimals all_calls_succeed
              (blank_frame 480 640) (blank_frame 480 640) one_car [] 0 400 10
              (300, 380, 340, 420, tt, 3))
    as (_ & _ & Hnew & _).
  - reflexivity.
  - reflexivity.
  - reflexivity.
  - reflexivity.
  - reflexivity.
  - apply Hnew.
    + vm_compute. split; reflexivity.
    + simpl. tauto.
Defined.



(** An exception raised while the detections are drawn and labelled, before
    the counting pass, also leaves pool and counter as they came in. *)
Lemma detect_vehicles_ml_early_exception
    (Score : Type) (format_score : Score -> string)
    (cv_raises : DrawOp -> bool)
    (frame : Frame) (ml_detector : MLDetector Score)
    (matches : list Centroid) (vehicle_counter line_height offset : Z)
    detections e h :
  detect_vehicles ml_detector frame = inr detections ->
  detection_loop format_score cv_raises (classes ml_detector) detections []
    (mkHeap (draw (Line (0, clamped_line line_height (shape0 frame))
                        (shape1 frame, clamped_line line_height (shape0 frame))
                        (0, 255, 0) 2) frame) matches) = Raises e h ->
  cv_raises (Line (0, clamped_line line_height (shape0 frame))
                  (shape1 frame, clamped_line line_height (shape0 frame))
                  (0, 255, 0) 2) = false ->
  let res := detect_vehicles_ml format_score cv_raises frame ml_detector
               matches vehicle_counter line_height offset in
  printed res = Some e /\ ret_matches res = matches /\
  arg_matches res = matches /\ ret_counter res = vehicle_counter.
Proof.
  intros Hd Hl Hline res. subst res. rewrite detect_vehicles_ml_cases.
  cbn zeta. rewrite Hd, Hline.
  match type of Hl with
  | detection_loop _ _ _ _ _ ?h0 = _ =>
      pose proof (detection_loop_inv Score format_score cv_raises
                    (classes ml_detector) detections [] h0) as Hinv
  end.
  rewrite Hl in Hinv |- *. cbn [h_matches] in Hinv.
  cbn [printed ret_matches arg_matches ret_counter]. auto.
Qed.

(** C2, at a failing input.  The carried pool is empty, the counter is 0, the
    line is at 400 with offset 10 on a 480x640 frame, the detector reports one
    car whose midpoint [(320, 400)] is in the band, and the call that draws the
    count label raises.  The counting pass has by then appended the midpoint to
    the caller's list, and the handler returns that same list: the returned
    pool is [[(320, 400)]], not the empty pool passed in, while the counter is
    back at 0.  On the next call, with the pool and counter just returned and
    the same detection, the crossing is taken as already counted. *)
Theorem late_exception_returns_grown_pool :
  let res := detect_vehicles_ml two_decimals count_label_raises
               (blank_frame 480 640) one_car [] 0 400 10 in
  printed res =
    Some (CvError (PutTextRect "Vehicle Count: 1" (10, 30) 2 2 10 (0, 200, 0)))
  /\ ret_counter res = 0
  /\ ret_matches res = [(320, 400)]
  /\ arg_matches res = [(320, 400)]
  /\ ret_counter (detect_vehicles_ml two_decimals all_calls_succeed
                    (blank_frame 480 640) one_car
                    (ret_matches res) (ret_counter res) 400 10) = 0.
Proof. vm_compute. repeat split. Qed.

(** * Further properties of the occupancy classifier *)

Lemma filter_length_le {A : Type} (f g : A -> bool) (l : list A) :
  (forall a, f a = true -> g a = true) ->
  (length (filter f l) <= length (filter g l))%nat.
Proof.
  intros Hfg. induction l as [|a l IH]; cbn [filter]; [lia|].
  destruct (f a) eqn:Hf.
  - rewrite (Hfg a Hf). cbn [length]. lia.
  - destruct (g a); cbn [length]; lia.
Qed.

Lemma check_loop_frame processed_img threshold ps : forall i img n,
  exists ops,
    extends (fst (fold_left (check_space processed_img threshold)
                            (enumerate_from i ps) (img, n))) img ops /\
    length ops = (3 * length (filter (in_bounds processed_img) ps))%nat.
Proof.
  induction ps as [|r ps IH]; intros i img n;
    cbn [fold_left enumerate_from filter].
  - exists []. split; [apply extends_refl|reflexivity].
  - destruct (in_bounds processed_img r) eqn:Hb.
    + destruct r as [[[x y] w] h]. rewrite check_space_scored by exact Hb.
      match goal with
      | |- context [fold_left _ _ (?f, ?m)] =>
          destruct (IH (i + 1) f m) as (ops & He & Hl)
      end.
      eexists. split.
      * unfold extends in *. rewrite He. unfold draw; cbn [shape0 shape1 pixels overlay].
        rewrite <- !app_assoc. reflexivity.
      * cbn [app length]. rewrite Hl. lia.
    + rewrite check_space_skipped by exact Hb. apply IH.
Qed.

(** The free-space counter lies between 0 and the number of regions that pass
    the guard, hence between 0 and the number of configured regions: the
    caller's [total - free] is never negative. *)
Theorem check_parking_space_counter_bounds
    (processed_img : Mask) (img : Frame) (ps : list Region) (threshold : Z) :
  0 <= snd (check_parking_space processed_img img ps threshold)
  /\ snd (check_parking_space processed_img img ps threshold) <=
     Z.of_nat (length (filter (in_bounds processed_img) ps))
  /\ Z.of_nat (length (filter (in_bounds processed_img) ps)) <=
     Z.of_nat (length ps).
Proof.
  unfold check_parking_space, enumerate. rewrite check_loop_counter.
  pose proof (filter_length_le (is_free processed_img threshold)
                (in_bounds processed_img) ps) as H1.
  pose proof (filter_length (in_bounds processed_img) ps) as H2.
  assert (forall a, is_free processed_img threshold a = true ->
                    in_bounds processed_img a = true).
  { intros a Ha. unfold is_free in Ha. apply andb_true_iff in Ha. tauto. }
  specialize (H1 H). lia.
Qed.

(** [check_parking_space] only draws: the returned frame is the frame passed
    in, same shape and contents, with what was already drawn kept in front
    and exactly three drawing calls added per region that passes the guard.
    With an empty position list it returns the frame untouched and 0. *)
Theorem check_parking_space_draws_three
    (processed_img : Mask) (img : Frame) (ps : list Region) (threshold : Z) :
  (exists ops,
     fst (check_parking_space processed_img img ps threshold) =
       mkFrame (shape0 img) (shape1 img) (pixels img) (overlay img ++ ops) /\
     length ops = (3 * length (filter (in_bounds processed_img) ps))%nat)
  /\ check_parking_space processed_img img [] threshold = (img, 0).
Proof.
  split; [|reflexivity].
  unfold check_parking_space, enumerate.
  destruct (check_loop_frame processed_img threshold ps 0 img 0)
    as (ops & He & Hl).
  exists ops. split; [exact He|exact Hl].
Qed.

(** The ID written next to a region is its position in the whole position
    list: regions that fail the guard get no label but still use up their
    number, so later regions keep theirs. *)
Theorem check_parking_space_ids_are_positions
    (processed_img : Mask) (img : Frame) (ps : list Region) (threshold : Z) :
  id_labels (overlay (fst (check_parking_space processed_img img ps threshold)))
  = id_labels (overlay img) ++
    map id_label (filter (fun ir => in_bounds processed_img (snd ir))
                         (enumerate ps))
  /\ (forall pre x y w h post,
        ps = pre ++ (x, y, w, h) :: post ->
        in_bounds processed_img (x, y, w, h) = true ->
        In (str (Z.of_nat (length pre)), (x + 5, y + 15))
           (id_labels (overlay (fst (check_parking_space processed_img img ps
                                       threshold))))).
Proof.
  assert (E : id_labels (overlay (fst (check_parking_space processed_img img
                                         ps threshold))) =
              id_labels (overlay img) ++
              map id_label (filter (fun ir => in_bounds processed_img (snd ir))
                                   (enumerate ps))).
  { unfold check_parking_space, enumerate. apply check_loop_id_labels. }
  split; [exact E|].
  intros pre x y w h post -> Hb. rewrite E. apply in_or_app. right.
  unfold enumerate. rewrite enumerate_from_app. cbn [enumerate_from].
  rewrite filter_app, map_app. apply in_or_app. right.
  cbn [filter snd]. rewrite Hb. cbn [map id_label]. left.
  reflexivity.
Qed.

Lemma check_parking_space_ids_are_positions_witness :
  In ("2"%string, (6, 16))
     (id_labels (overlay (fst (check_parking_space sample_mask
                                 (blank_frame 4 4)
                                 [(0, 0, 1, 1); (9, 9, 1, 1); (1, 1, 2, 2)]
                                 4)))).
Proof.
  destruct (check_parking_space_ids_are_positions sample_mask
              (blank_frame 4 4) [(0, 0, 1, 1); (9, 9, 1, 1); (1, 1, 2, 2)] 4)
    as (_ & Hid).
  apply (Hid [(0, 0, 1, 1); (9, 9, 1, 1)] 1 1 2 2 []); reflexivity.
Defined.

(** Raising the threshold never lowers the free-space count. *)
Theorem check_parking_space_threshold_monotone
    (processed_img : Mask) (img : Frame) (ps : list Region)
    (threshold threshold' : Z) :
  threshold <= threshold' ->
  snd (check_parking_space processed_img img ps threshold) <=
  snd (check_parking_space processed_img img ps threshold').
Proof.
  intros Hle. unfold check_parking_space, enumerate.
  rewrite !check_loop_counter.
  pose proof (filter_length_le (is_free processed_img threshold)
                (is_free processed_img threshold') ps) as H.
  assert (forall a, is_free processed_img threshold a = true ->
                    is_free processed_img threshold' a = true).
  { intros a. unfold is_free, occupied.
    destruct (in_bounds processed_img a); cbn [andb]; [|auto].
    rewrite !negb_true_iff, !Z.leb_gt. lia. }
  specialize (H H0). lia.
Qed.

Lemma check_parking_space_threshold_monotone_witness :
  snd (check_parking_space sample_mask (blank_frame 4 4)
         [(1, 1, 2, 2); (0, 0, 1, 1)] 4) <=
  snd (check_parking_space sample_mask (blank_frame 4 4)
         [(1, 1, 2, 2); (0, 0, 1, 1)] 5).
Proof.
  apply (check_parking_space_threshold_monotone sample_mask (blank_frame 4 4)
           [(1, 1, 2, 2); (0, 0, 1, 1)] 4 5).
  lia.
Defined.

Lemma countNonZero_nonneg (m : Mask) : 0 <= countNonZero m.
Proof. unfold countNonZero. lia. Qed.

(** With a threshold of zero or less no region is ever free: the counter is 0
    and every box drawn is red, whatever the image holds. *)
Theorem check_parking_space_nonpositive_threshold
    (processed_img : Mask) (img : Frame) (ps : list Region) (threshold : Z) :
  threshold <= 0 ->
  snd (check_parking_space processed_img img ps threshold) = 0
  /\ forall b, In b (boxes (overlay (fst (check_parking_space processed_img
                                            img ps threshold)))) ->
               In b (boxes (overlay img)) \/ snd b = red.
Proof.
  intros Hth.
  assert (Hocc : forall r, occupied (region_count processed_img r) threshold
                           = true).
  { intros [[[x y] w] h]. unfold occupied, region_count.
    pose proof (countNonZero_nonneg
                  (crop processed_img y (y + h) x (x + w))). lia. }
  unfold check_parking_space, enumerate.
  rewrite check_loop_counter, check_loop_boxes. split.
  - replace (filter (is_free processed_img threshold) ps) with (@nil Region);
      [reflexivity|].
    symmetry. induction ps as [|r ps IH]; [reflexivity|].
    cbn [filter]. unfold is_free at 1. rewrite Hocc, andb_false_r. exact IH.
  - intros b Hin. apply in_app_or in Hin. destruct Hin as [Hin|Hin];
      [now left|right].
    apply in_map_iff in Hin. destruct Hin as ([[[x y] w] h] & <- & _).
    unfold box_of. rewrite Hocc. reflexivity.
Qed.

Lemma check_parking_space_nonpositive_threshold_witness :
  snd (check_parking_space sample_mask (blank_frame 4 4)
         [(1, 1, 2, 2); (0, 0, 1, 1)] 0) = 0.
Proof.
  apply (check_parking_space_nonpositive_threshold sample_mask
           (blank_frame 4 4) [(1, 1, 2, 2); (0, 0, 1, 1)] 0).
  lia.
Defined.

Lemma flat_map_const_length {A B : Type} (f : A -> list B) (l : list A) c :
  (forall a, length (f a) = c) ->
  length (flat_map f l) = (length l * c)%nat.
Proof.
  intros Hf. induction l as [|a l IH]; cbn [flat_map length]; [reflexivity|].
  rewrite length_app, Hf, IH. lia.
Qed.

Lemma region_positions_length x y w h :
  length (region_positions (x, y, w, h)) = (Z.to_nat h * Z.to_nat w)%nat.
Proof.
  unfold region_positions.
  rewrite (flat_map_const_length _ _ (Z.to_nat w)).
  - now rewrite length_seq.
  - intros j. now rewrite length_map, length_seq.
Qed.

Lemma py_slice_same {A : Type} (l : list A) a : py_slice l a a = [].
Proof. unfold py_slice. now rewrite Z.sub_diag. Qed.

Lemma concat_all_nil {A B : Type} (l : list A) :
  concat (map (fun _ => @nil B) l) = [].
Proof. induction l; simpl; auto. Qed.

(** On a rectangular image, the count of a region that passes the guard is at
    most its area [w * h] (and at least 0).  So a region whose area is below
    the threshold is reported free whatever the image holds: the threshold is
    an absolute pixel count, not a share of the region. *)
Theorem region_count_at_most_area
    (processed_img : Mask) (threshold x y w h : Z) :
  rectangular processed_img ->
  in_bounds processed_img (x, y, w, h) = true -> 0 <= w -> 0 <= h ->
  0 <= region_count processed_img (x, y, w, h) <= w * h
  /\ (w * h < threshold ->
      is_free processed_img threshold (x, y, w, h) = true).
Proof.
  intros Hrect Hb Hw Hh.
  assert (Hc : 0 <= region_count processed_img (x, y, w, h) <= w * h).
  { rewrite region_count_pixels by assumption.
    unfold active_pixels.
    pose proof (filter_length
                  (fun p => nonzero (pixel_at processed_img (fst p) (snd p)))
                  (region_positions (x, y, w, h))) as Hl.
    rewrite region_positions_length in Hl. nia. }
  split; [exact Hc|].
  intros Hth. unfold is_free, occupied. rewrite Hb. cbn [andb].
  apply negb_true_iff, Z.leb_gt. lia.
Qed.

Lemma region_count_at_most_area_witness :
  region_count sample_mask (1, 1, 2, 2) <= 2 * 2 /\
  is_free sample_mask 5 (1, 1, 2, 2) = true.
Proof.
  destruct (region_count_at_most_area sample_mask 5 1 1 2 2) as (Hc & Hf).
  - repeat constructor.
  - reflexivity.
  - lia.
  - lia.
  - split; [apply Hc|]. apply Hf. lia.
Defined.

(** A region of zero width or zero height that passes the guard has an empty
    crop: its count is 0, so it is free for every positive threshold. *)
Theorem empty_region_count_zero
    (processed_img : Mask) (threshold x y w h : Z) :
  in_bounds processed_img (x, y, w, h) = true -> w = 0 \/ h = 0 ->
  region_count processed_img (x, y, w, h) = 0
  /\ (0 < threshold -> is_free processed_img threshold (x, y, w, h) = true).
Proof.
  intros Hb Hz.
  assert (Hc : region_count processed_img (x, y, w, h) = 0).
  { unfold region_count, crop, countNonZero. destruct Hz as [->| ->].
    - rewrite Z.add_0_r.
      replace (map (fun row => py_slice row x x) (py_slice processed_img y (y + h)))
        with (map (fun _ : list Z => @nil Z) (py_slice processed_img y (y + h)))
        by (apply map_ext; intros row; now rewrite py_slice_same).
      now rewrite concat_all_nil.
    - rewrite Z.add_0_r, py_slice_same. reflexivity. }
  split; [exact Hc|].
  intros Hth. unfold is_free, occupied. rewrite Hb, Hc. cbn [andb].
  apply negb_true_iff, Z.leb_gt. lia.
Qed.

Lemma empty_region_count_zero_witness :
  region_count sample_mask (1, 1, 0, 2) = 0.
Proof.
  apply (empty_region_count_zero sample_mask 1 1 1 0 2).
  - reflexivity.
  - now left.
Defined.

(** * Further properties of the motion-based tracker *)

Lemma get_centroid_inside x y w h :
  0 <= w -> 0 <= h ->
  x <= fst (get_centroid x y w h) <= x + w /\
  y <= snd (get_centroid x y w h) <= y + h /\
  (0 < w -> fst (get_centroid x y w h) < x + w) /\
  (0 < h -> snd (get_centroid x y w h) < y + h).
Proof.
  intros Hw Hh. unfold get_centroid; cbn [fst snd].
  pose proof (Z.div_mod w 2 ltac:(lia)).
  pose proof (Z.mod_pos_bound w 2 ltac:(lia)).
  pose proof (Z.div_mod h 2 ltac:(lia)).
  pose proof (Z.mod_pos_bound h 2 ltac:(lia)).
  lia.
Qed.

Lemma contour_loop_frame_len mw mh contours : forall frame pool,
  exists ops,
    extends (fst (fold_left (contour_step mw mh) contours (frame, pool)))
            frame ops /\
    length ops = (2 * length (filter (contour_valid mw mh) contours))%nat.
Proof.
  induction contours as [|c cs IH]; intros frame pool;
    cbn [fold_left filter].
  - exists []. split; [apply extends_refl|reflexivity].
  - rewrite contour_step_eq. destruct (contour_valid mw mh c).
    + destruct c as [[[x y] w] h].
      match goal with
      | |- context [fold_left _ cs (?f, ?p)] =>
          destruct (IH f p) as (ops & He & Hl)
      end.
      eexists. split.
      * unfold extends in *. rewrite He.
        unfold draw; cbn [shape0 shape1 pixels overlay].
        rewrite <- !app_assoc. reflexivity.
      * cbn [app length]. rewrite Hl. lia.
    + apply IH.
Qed.

(** Every centroid that [detect_vehicles_traditional] returns was either
    carried in or is the centre of the bounding box of a contour that passed
    the size filter; with non-negative minimum sizes that centre lies inside
    the box. *)
Theorem traditional_pool_origin
    (boundingRects : Frame -> Frame -> list Region) (frame1 frame2 : Frame)
    (min_contour_width min_contour_height line_height offset : Z)
    (matches : list Centroid) (vehicle_counter : Z) (c : Centroid) :
  0 <= min_contour_width -> 0 <= min_contour_height ->
  In c (snd (fst (detect_vehicles_traditional boundingRects frame1 frame2
                    min_contour_width min_contour_height line_height offset
                    matches vehicle_counter))) ->
  In c matches \/
  exists x y w h,
    In (x, y, w, h) (boundingRects frame1 frame2) /\
    min_contour_width <= w /\ min_contour_height <= h /\
    c = get_centroid x y w h /\
    x <= fst c <= x + w /\ y <= snd c <= y + h.
Proof.
  intros Hmw Hmh Hin.
  destruct (detect_vehicles_traditional_spec boundingRects frame1 frame2
              min_contour_width min_contour_height line_height offset
              matches vehicle_counter) as (_ & Hp & _).
  rewrite Hp in Hin. apply filter_In in Hin. destruct Hin as [Hin _].
  unfold combined_pool in Hin. apply in_app_or in Hin.
  destruct Hin as [Hin|Hin]; [now left|right].
  apply in_map_iff in Hin. destruct Hin as ([[[x y] w] h] & <- & Hc).
  apply filter_In in Hc. destruct Hc as [Hc Hv].
  unfold contour_valid in Hv.
  exists x, y, w, h. cbn [contour_centroid].
  pose proof (get_centroid_inside x y w h ltac:(lia) ltac:(lia)) as Hi.
  repeat split; try lia; try exact Hc; apply Hi.
Qed.

Lemma traditional_pool_origin_witness :
  In (120, 220) [(7, 100)] \/
  exists x y w h,
    In (x, y, w, h) (one_blob (blank_frame 480 640) (blank_frame 480 640)) /\
    40 <= w /\ 40 <= h /\ (120, 220) = get_centroid x y w h /\
    x <= fst (120, 220) <= x + w /\ y <= snd (120, 220) <= y + h.
Proof.
  apply (traditional_pool_origin one_blob (blank_frame 480 640)
           (blank_frame 480 640) 40 40 400 10 [(7, 100)] 0 (120, 220)).
  - lia.
  - lia.
  - vm_compute. auto.
Defined.

(** Every centroid of the combined pool is either counted or returned: the
    size of the returned pool plus the gain of the counter is the number of
    carried centroids plus the number of contours that passed the size
    filter, and the returned pool keeps the order of the combined pool. *)
Theorem traditional_pool_conservation
    (boundingRects : Frame -> Frame -> list Region) (frame1 frame2 : Frame)
    (min_contour_width min_contour_height line_height offset : Z)
    (matches : list Centroid) (vehicle_counter : Z) :
  let res := detect_vehicles_traditional boundingRects frame1 frame2
               min_contour_width min_contour_height line_height offset
               matches vehicle_counter in
  Z.of_nat (length (snd (fst res))) + (snd res - vehicle_counter) =
  Z.of_nat (length matches) +
  Z.of_nat (length (filter (contour_valid min_contour_width min_contour_height)
                           (boundingRects frame1 frame2)))
  /\ snd (fst res) =
     filter (fun c => negb (in_band (clamped_line line_height (shape0 frame1))
                                    offset c))
            (matches ++
             map contour_centroid
                 (filter (contour_valid min_contour_width min_contour_height)
                         (boundingRects frame1 frame2))).
Proof.
  intros res.
  destruct (detect_vehicles_traditional_spec boundingRects frame1 frame2
              min_contour_width min_contour_height line_height offset
              matches vehicle_counter) as (Hc & Hp & _).
  fold res in Hc, Hp. split; [|exact Hp].
  rewrite Hc, Hp. unfold combined_pool.
  set (pool := matches ++ _).
  assert (Hlen : length pool =
                 (length matches +
                  length (filter (contour_valid min_contour_width
                                                min_contour_height)
                                 (boundingRects frame1 frame2)))%nat)
    by (subst pool; now rewrite length_app, length_map).
  pose proof (filter_length (in_band (clamped_line line_height (shape0 frame1))
                                     offset) pool) as Hf.
  lia.
Qed.

(** With an offset of zero or less the band is empty: nothing is ever counted
    and the whole combined pool is carried on. *)
Theorem traditional_empty_band
    (boundingRects : Frame -> Frame -> list Region) (frame1 frame2 : Frame)
    (min_contour_width min_contour_height line_height offset : Z)
    (matches : list Centroid) (vehicle_counter : Z) :
  offset <= 0 ->
  let res := detect_vehicles_traditional boundingRects frame1 frame2
               min_contour_width min_contour_height line_height offset
               matches vehicle_counter in
  snd res = vehicle_counter /\
  snd (fst res) = combined_pool boundingRects frame1 frame2
                    min_contour_width min_contour_height matches.
Proof.
  intros Hoff res.
  destruct (detect_vehicles_traditional_spec boundingRects frame1 frame2
              min_contour_width min_contour_height line_height offset
              matches vehicle_counter) as (Hc & Hp & _).
  fold res in Hc, Hp. rewrite Hc, Hp.
  set (pool := combined_pool _ _ _ _ _ _).
  set (line_y := clamped_line _ _).
  assert (Hnone : forall c, in_band line_y offset c = false)
    by (intros c; unfold in_band; lia).
  clearbody pool. split.
  - replace (filter (in_band line_y offset) pool) with (@nil Centroid);
      [simpl; lia|].
    symmetry. induction pool as [|c pool IH]; [reflexivity|].
    cbn [filter]. now rewrite Hnone.
  - induction pool as [|c pool IH]; [reflexivity|].
    cbn [filter]. rewrite Hnone. cbn [negb]. now rewrite IH.
Qed.

Lemma traditional_empty_band_witness :
  snd (detect_vehicles_traditional one_blob (blank_frame 480 640)
         (blank_frame 480 640) 40 40 400 0 [(5, 400)] 3) = 3.
Proof.
  apply (traditional_empty_band one_blob (blank_frame 480 640)
           (blank_frame 480 640) 40 40 400 0 [(5, 400)] 3).
  lia.
Defined.

(** The drawing calls of the contour loop: for each contour that passes the
    size filter, in order, its box grown by 10 on every side and the dot on
    its centroid. *)
Lemma contour_loop_marks mw mh contours : forall frame pool,
  extends (fst (fold_left (contour_step mw mh) contours (frame, pool))) frame
    (flat_map
       (fun c : Region =>
          let '(x, y, w, h) := c in
          [Rectangle (x - 10, y - 10) (x + w + 10, y + h + 10) (255, 0, 0) 2;
           Circle (get_centroid x y w h) 5 (0, 255, 0) (-1)])
       (filter (contour_valid mw mh) contours)).
Proof.
  induction contours as [|c rest IH]; intros frame pool;
    cbn [fold_left filter flat_map fst].
  - apply extends_refl.
  - rewrite contour_step_eq.
    destruct (contour_valid mw mh c) eqn:Hv; [|apply IH].
    destruct c as [[[x y] w] h]. cbn [flat_map].
    specialize (IH (draw (Circle (contour_centroid (x, y, w, h)) 5
                                 (0, 255, 0) (-1))
                         (draw (Rectangle (x - 10, y - 10)
                                          (x + w + 10, y + h + 10)
                                          (255, 0, 0) 2) frame))
                   (pool ++ [contour_centroid (x, y, w, h)])).
    unfold extends in *. rewrite IH.
    unfold draw, contour_centroid; cbn [shape0 shape1 pixels overlay].
    rewrite <- !app_assoc. reflexivity.
Qed.

(** What the motion tracker draws, after what was on the frame: the line
    first; then, for each contour that passed the size filter, in the order
    of the contours, its blue box grown by 10 pixels on every side and a
    filled green dot of radius 5 on its centroid; then the count label, whose
    text shows the counter that the call returns.  That is two calls per
    valid contour, and the shape and contents of the frame are those passed
    in. *)
Theorem traditional_overlay
    (boundingRects : Frame -> Frame -> list Region) (frame1 frame2 : Frame)
    (min_contour_width min_contour_height line_height offset : Z)
    (matches : list Centroid) (vehicle_counter : Z) :
  let res := detect_vehicles_traditional boundingRects frame1 frame2
               min_contour_width min_contour_height line_height offset
               matches vehicle_counter in
  let line_y := clamped_line line_height (shape0 frame1) in
  let valid := filter (contour_valid min_contour_width min_contour_height)
                      (boundingRects frame1 frame2) in
  let marks :=
    flat_map
      (fun c : Region =>
         let '(x, y, w, h) := c in
         [Rectangle (x - 10, y - 10) (x + w + 10, y + h + 10) (255, 0, 0) 2;
          Circle (get_centroid x y w h) 5 (0, 255, 0) (-1)])
      valid in
  fst (fst res) =
    mkFrame (shape0 frame1) (shape1 frame1) (pixels frame1)
      (overlay frame1 ++
       Line (0, line_y) (shape1 frame1, line_y) (0, 255, 0) 2 :: marks ++
       [PutTextRect ("Vehicle Count: " ++ str (snd res)) (10, 30) 2 2 10
                    (0, 200, 0)]) /\
  length marks = (2 * length valid)%nat.
Proof.
  intros res line_y valid marks. split.
  - subst res. unfold detect_vehicles_traditional.
    rewrite clamped_line_code. fold line_y.
    pose proof (contour_loop_marks min_contour_width min_contour_height
                  (boundingRects frame1 frame2)
                  (draw (Line (0, line_y) (shape1 frame1, line_y)
                              (0, 255, 0) 2) frame1) matches) as He.
    fold valid in He. fold marks in He.
    destruct (fold_left (contour_step _ _) _ _) as [frame' new_matches].
    cbn [fst] in He.
    destruct (fold_left (crossing_step _ _) _ _) as [new_counter remaining].
    cbn [fst snd].
    unfold extends in He. rewrite He.
    unfold draw; cbn [shape0 shape1 pixels overlay].
    rewrite <- !app_assoc. reflexivity.
  - subst marks. induction valid as [|[[[x y] w] h] rest IH];
      [reflexivity|].
    cbn [flat_map length app]. rewrite IH. lia.
Qed.

Lemma filter_some_length {A : Type} (f : A -> bool) (l : list A) a :
  In a l -> f a = true -> (1 <= length (filter f l))%nat.
Proof.
  intros Hin Hf.
  assert (H : In a (filter f l)) by (apply filter_In; now split).
  destruct (filter f l); [contradiction|simpl; lia].
Qed.

Lemma track_traditional_monotone boundingRects stream mw mh line_height offset :
  forall matches n,
  n <= snd (track_traditional boundingRects stream mw mh line_height offset
              matches n).
Proof.
  induction stream as [|[f1 f2] rest IH]; intros matches n;
    cbn [track_traditional]; [simpl; lia|].
  destruct (detect_vehicles_traditional_spec boundingRects f1 f2 mw mh
              line_height offset matches n) as (Hc & _).
  destruct (detect_vehicles_traditional _ _ _ _ _ _ _ _ _)
    as [[frame' remaining] counter']. cbn [snd] in Hc.
  specialize (IH remaining counter'). lia.
Qed.

(** The motion tracker keeps no memory of what it has counted.  Over a stream
    of calls, each fed the pool and counter of the previous one, the counter
    goes up at least once for every frame pair in which some contour of valid
    size has its centre in the band: an object that stays in the band is
    counted again on every frame. *)
Theorem traditional_counts_every_frame
    (boundingRects : Frame -> Frame -> list Region)
    (stream : list (Frame * Frame))
    (min_contour_width min_contour_height line_height offset : Z)
    (matches : list Centroid) (vehicle_counter : Z) :
  Forall (fun ff : Frame * Frame =>
            exists c,
              In c (boundingRects (fst ff) (snd ff)) /\
              contour_valid min_contour_width min_contour_height c = true /\
              crossing_band (clamped_line line_height (shape0 (fst ff))) offset
                            (snd (contour_centroid c))) stream ->
  vehicle_counter + Z.of_nat (length stream) <=
  snd (track_traditional boundingRects stream min_contour_width
         min_contour_height line_height offset matches vehicle_counter).
Proof.
  revert matches vehicle_counter.
  induction stream as [|[f1 f2] rest IH]; intros matches n Hall;
    cbn [track_traditional]; [simpl; lia|].
  inversion Hall as [|? ? (c & Hin & Hv & Hb) Hrest]; subst.
  cbn [fst snd] in Hin, Hb.
  destruct (detect_vehicles_traditional_spec boundingRects f1 f2
              min_contour_width min_contour_height line_height offset
              matches n) as (Hc & _).
  destruct (detect_vehicles_traditional _ _ _ _ _ _ _ _ _)
    as [[frame' remaining] counter']. cbn [snd] in Hc.
  specialize (IH remaining counter' Hrest).
  assert (Hone : (1 <= length (filter (in_band (clamped_line line_height
                                                              (shape0 f1))
                                               offset)
                                      (combined_pool boundingRects f1 f2
                                         min_contour_width min_contour_height
                                         matches)))%nat).
  { apply (filter_some_length _ _ (contour_centroid c)).
    - unfold combined_pool. apply in_or_app. right. apply in_map.
      apply filter_In. now split.
    - now apply in_band_spec. }
  cbn [length]. lia.
Qed.

Lemma traditional_counts_every_frame_witness :
  let pair := (blank_frame 480 640, blank_frame 480 640) in
  0 + 3 <= snd (track_traditional one_blob [pair; pair; pair]
                  40 40 220 10 [] 0).
Proof.
  intros pair.
  apply (traditional_counts_every_frame one_blob [pair; pair; pair]
           40 40 220 10 [] 0).
  repeat constructor;
    (exists (100, 200, 40, 40); split; [now left|];
     split; [reflexivity|]; vm_compute; split; reflexivity).
Defined.

(** * Further properties of the detector-based tracker *)

Lemma centroid_eq_dec (a b : Centroid) : {a = b} + {a <> b}.
Proof.
  destruct (centroid_eqb a b) eqn:E.
  - left. now apply centroid_eqb_eq.
  - right. intros H. apply centroid_eqb_eq in H. congruence.
Qed.

(** The centroids that the counting pass appends: each once, and exactly the
    current centroids in the band that the pool did not hold. *)
Lemma count_new_added line_y offset current : forall pool n,
  exists added,
    fst (count_new line_y offset current pool n) = pool ++ added /\
    snd (count_new line_y offset current pool n) = n + Z.of_nat (length added) /\
    NoDup added /\
    (forall c, In c added <->
               In c current /\ crossing_band line_y offset (snd c) /\
               ~ In c pool).
Proof.
  induction current as [|c rest IH]; intros pool n; cbn [count_new].
  - exists []. rewrite app_nil_r. cbn [fst snd length].
    split; [reflexivity|]. split; [lia|]. split; [constructor|].
    intros a. split; [intros []|intros ([] & _)].
  - destruct (in_band line_y offset c && negb (mem c pool)) eqn:E.
    + apply andb_true_iff in E. destruct E as [Hb Hm].
      apply in_band_spec in Hb. apply negb_true_iff in Hm.
      assert (Hnew : ~ In c pool)
        by (intros H; apply mem_spec in H; congruence).
      destruct (IH (pool ++ [c]) (n + 1)) as (added & Hf & Hs & Hnd & Hiff).
      exists (c :: added). rewrite Hf, Hs, <- app_assoc. cbn [app length].
      split; [reflexivity|]. split; [lia|]. split.
      * constructor; [|exact Hnd]. intros Hin. apply Hiff in Hin.
        destruct Hin as (_ & _ & Hn). apply Hn. apply in_or_app. right.
        now left.
      * intros a. split.
        -- intros [<-|Hin].
           ++ split; [now left|]. split; assumption.
           ++ apply Hiff in Hin. destruct Hin as (H1 & H2 & H3).
              split; [now right|]. split; [exact H2|].
              intros H. apply H3. apply in_or_app. now left.
        -- intros (H1 & H2 & H3).
           destruct (centroid_eq_dec c a) as [->|Hne]; [now left|right].
           apply Hiff. destruct H1 as [H1|H1]; [contradiction|].
           split; [exact H1|]. split; [exact H2|].
           intros H. apply in_app_or in H. destruct H as [H|[H|[]]];
             [contradiction|congruence].
    + destruct (IH pool n) as (added & Hf & Hs & Hnd & Hiff).
      exists added. split; [exact Hf|]. split; [exact Hs|].
      split; [exact Hnd|]. intros a. rewrite Hiff. split.
      * intros (H1 & H2 & H3). split; [now right|]. now split.
      * intros (H1 & H2 & H3). destruct H1 as [<-|H1].
        -- exfalso. apply andb_false_iff in E. destruct E as [E|E].
           ++ apply in_band_false in E. contradiction.
           ++ apply negb_false_iff, mem_spec in E. contradiction.
        -- split; [exact H1|]. now split.
Qed.

(** On a normal return the detector tracker has counted each distinct
    midpoint that lies in the band and was not in the carried pool, once:
    two detections with the same midpoint in one frame count as one, and the
    gain is at most the number of detections. *)
Theorem ml_counts_distinct_new
    (Score : Type) (format_score : Score -> string)
    (cv_raises : DrawOp -> bool)
    (frame : Frame) (ml_detector : MLDetector Score)
    (matches : list Centroid) (vehicle_counter line_height offset : Z) :
  let ml := detect_vehicles_ml format_score cv_raises frame ml_detector
              matches vehicle_counter line_height offset in
  let line_y := clamped_line line_height (shape0 frame) in
  printed ml = None ->
  exists detections added,
    detect_vehicles ml_detector frame = inr detections /\
    arg_matches ml = matches ++ added /\
    ret_counter ml = vehicle_counter + Z.of_nat (length added) /\
    NoDup added /\
    (forall c, In c added <->
               In c (map centroid_of detections) /\
               crossing_band line_y offset (snd c) /\ ~ In c matches) /\
    (length added <= length detections)%nat.
Proof.
  intros ml line_y Hn.
  pose proof (detect_vehicles_ml_outcome Score format_score cv_raises frame
                ml_detector matches vehicle_counter line_height offset) as Ho.
  cbn zeta in Ho. fold ml line_y in Ho. rewrite Hn in Ho.
  destruct Ho as (detections & Hd & Hc & Ha & _).
  destruct (count_new_added line_y offset (map centroid_of detections)
              matches vehicle_counter) as (added & Hf & Hs & Hnd & Hiff).
  exists detections, added.
  split; [exact Hd|]. split; [congruence|]. split; [congruence|].
  split; [exact Hnd|]. split; [exact Hiff|].
  apply Nat.le_trans with (length (map centroid_of detections)).
  - apply NoDup_incl_length; [exact Hnd|].
    intros c Hin. now apply Hiff in Hin.
  - rewrite length_map. apply Nat.le_refl.
Qed.

Lemma ml_counts_distinct_new_witness :
  let twice : MLDetector unit :=
    mkDetector (fun _ => inr [(300, 380, 340, 420, tt, 3);
                              (310, 390, 330, 410, tt, 3)]) coco_classes in
  ret_counter (detect_vehicles_ml two_decimals all_calls_succeed
                 (blank_frame 480 640) twice [] 0 400 10) = 1.
Proof.
  intros twice.
  destruct (ml_counts_distinct_new unit two_decimals all_calls_succeed
              (blank_frame 480 640) twice [] 0 400 10)
    as (ds & added & Hd & Ha & Hc & _); [reflexivity|].
  rewrite Hc.
  assert (E : added = [(320, 400)]) by (vm_compute in Ha; congruence).
  rewrite E. reflexivity.
Defined.

Lemma count_new_single line_y offset c pool n :
  count_new line_y offset [c] pool n =
  if in_band line_y offset c && negb (mem c pool)
  then (pool ++ [c], n + 1) else (pool, n).
Proof. cbn [count_new]. now destruct (_ && _). Qed.

Lemma mem_false c pool : ~ In c pool -> mem c pool = false.
Proof.
  intros H. apply not_true_is_false. intros E. apply H. now apply mem_spec.
Qed.

(** The detector tracker recognises an object only by the exact value of its
    midpoint.  If the detection of the next frame has a different midpoint,
    however close, and that midpoint is in the band too, it is counted as a
    new crossing: two calls, two counts. *)
Theorem ml_moved_detection_recounted
    (Score : Type) (format_score : Score -> string)
    (cv_raises : DrawOp -> bool)
    (frame frame' : Frame) (ml_detector : MLDetector Score)
    (matches : list Centroid) (vehicle_counter line_height offset : Z)
    (d d' : Detection Score) :
  let line_y := clamped_line line_height (shape0 frame) in
  let r1 := detect_vehicles_ml format_score cv_raises frame ml_detector
              matches vehicle_counter line_height offset in
  let r2 := detect_vehicles_ml format_score cv_raises frame' ml_detector
              (ret_matches r1) (ret_counter r1) line_height offset in
  detect_vehicles ml_detector frame = inr [d] ->
  detect_vehicles ml_detector frame' = inr [d'] ->
  shape0 frame' = shape0 frame ->
  printed r1 = None -> printed r2 = None ->
  crossing_band line_y offset (snd (centroid_of d)) ->
  crossing_band line_y offset (snd (centroid_of d')) ->
  ~ In (centroid_of d) matches -> ~ In (centroid_of d') matches ->
  centroid_of d' <> centroid_of d ->
  ret_counter r2 = vehicle_counter + 2.
Proof.
  intros line_y r1 r2 Hd Hd' Hshape Hn1 Hn2 Hb Hb' Hnew Hnew' Hne.
  pose proof (detect_vehicles_ml_outcome Score format_score cv_raises frame
                ml_detector matches vehicle_counter line_height offset) as H1.
  pose proof (detect_vehicles_ml_outcome Score format_score cv_raises frame'
                ml_detector (ret_matches r1) (ret_counter r1) line_height
                offset) as H2.
  cbn zeta in H1, H2. fold r1 line_y in H1. fold r1 r2 in H2.
  rewrite Hn1 in H1. rewrite Hn2, Hshape in H2. fold line_y in H2.
  destruct H1 as (ds1 & E1 & Hc1 & Ha1 & Hr1 & _).
  destruct H2 as (ds2 & E2 & Hc2 & _).
  rewrite Hd in E1. injection E1 as <-.
  rewrite Hd' in E2. injection E2 as <-.
  cbn [map] in Hc1, Ha1, Hr1, Hc2.
  apply in_band_spec in Hb, Hb'.
  rewrite count_new_single, Hb, (mem_false _ _ Hnew) in Hc1, Ha1.
  cbn [andb negb fst snd] in Hc1, Ha1.
  rewrite count_new_single, Hb' in Hc2.
  rewrite mem_false in Hc2.
  - cbn [andb negb snd] in Hc2. lia.
  - rewrite Hr1, Ha1. intros Hin. apply filter_In in Hin.
    destruct Hin as [Hin _]. apply in_app_or in Hin.
    destruct Hin as [Hin|[Hin|[]]]; [contradiction|congruence].
Qed.

Lemma ml_moved_detection_recounted_witness :
  let moving : MLDetector unit :=
    mkDetector (fun f => if shape1 f =? 640
                         then inr [(300, 380, 340, 420, tt, 3)]
                         else inr [(300, 381, 340, 421, tt, 3)])
               coco_classes in
  let r1 := detect_vehicles_ml two_decimals all_calls_succeed
              (blank_frame 480 640) moving [] 0 400 10 in
  ret_counter (detect_vehicles_ml two_decimals all_calls_succeed
                 (blank_frame 480 641) moving (ret_matches r1)
                 (ret_counter r1) 400 10) = 0 + 2.
Proof.
  intros moving r1.
  apply (ml_moved_detection_recounted unit two_decimals all_calls_succeed
           (blank_frame 480 640) (blank_frame 480 641) moving [] 0 400 10
           (300, 380, 340, 420, tt, 3) (300, 381, 340, 421, tt, 3)).
  - reflexivity.
  - reflexivity.
  - reflexivity.
  - reflexivity.
  - reflexivity.
  - vm_compute. split; reflexivity.
  - vm_compute. split; reflexivity.
  - simpl. tauto.
  - simpl. tauto.
  - vm_compute. discriminate.
Defined.

(** A frame without detections empties the pool, so the tracker forgets what
    it has counted: an object that is detected in the band, missed in the next
    frame and detected again at the same place is counted twice. *)
Theorem ml_dropout_recounted
    (Score : Type) (format_score : Score -> string)
    (cv_raises : DrawOp -> bool)
    (frame1 frame2 frame3 : Frame) (ml_detector : MLDetector Score)
    (matches : list Centroid) (vehicle_counter line_height offset : Z)
    (d : Detection Score) :
  let line_y := clamped_line line_height (shape0 frame1) in
  let r1 := detect_vehicles_ml format_score cv_raises frame1 ml_detector
              matches vehicle_counter line_height offset in
  let r2 := detect_vehicles_ml format_score cv_raises frame2 ml_detector
              (ret_matches r1) (ret_counter r1) line_height offset in
  let r3 := detect_vehicles_ml format_score cv_raises frame3 ml_detector
              (ret_matches r2) (ret_counter r2) line_height offset in
  detect_vehicles ml_detector frame1 = inr [d] ->
  detect_vehicles ml_detector frame2 = inr [] ->
  detect_vehicles ml_detector frame3 = inr [d] ->
  shape0 frame3 = shape0 frame1 ->
  printed r1 = None -> printed r2 = None -> printed r3 = None ->
  crossing_band line_y offset (snd (centroid_of d)) ->
  ~ In (centroid_of d) matches ->
  ret_matches r2 = [] /\ ret_counter r3 = vehicle_counter + 2.
Proof.
  intros line_y r1 r2 r3 Hd1 Hd2 Hd3 Hshape Hn1 Hn2 Hn3 Hb Hnew.
  pose proof (detect_vehicles_ml_outcome Score format_score cv_raises frame1
                ml_detector matches vehicle_counter line_height offset) as H1.
  pose proof (detect_vehicles_ml_outcome Score format_score cv_raises frame2
                ml_detector (ret_matches r1) (ret_counter r1) line_height
                offset) as H2.
  pose proof (detect_vehicles_ml_outcome Score format_score cv_raises frame3
                ml_detector (ret_matches r2) (ret_counter r2) line_height
                offset) as H3.
  cbn zeta in H1, H2, H3. fold r1 line_y in H1. fold r1 r2 in H2.
  fold r1 r2 r3 in H3.
  rewrite Hn1 in H1. rewrite Hn2 in H2. rewrite Hn3, Hshape in H3.
  fold line_y in H3.
  destruct H1 as (ds1 & E1 & Hc1 & _).
  destruct H2 as (ds2 & E2 & Hc2 & _ & Hr2 & _).
  destruct H3 as (ds3 & E3 & Hc3 & _).
  rewrite Hd1 in E1. injection E1 as <-.
  rewrite Hd2 in E2. injection E2 as <-.
  rewrite Hd3 in E3. injection E3 as <-.
  cbn [map count_new snd] in Hc2. cbn [map existsb] in Hr2.
  rewrite filter_none in Hr2.
  cbn [map] in Hc1, Hc3. apply in_band_spec in Hb.
  rewrite count_new_single, Hb, (mem_false _ _ Hnew) in Hc1.
  rewrite count_new_single, Hb, Hr2 in Hc3.
  cbn [andb negb snd mem existsb] in Hc1, Hc3.
  split; [exact Hr2|]. lia.
Qed.

Lemma ml_dropout_recounted_witness :
  let flicker : MLDetector unit :=
    mkDetector (fun f => if shape1 f =? 640
                         then inr [(300, 380, 340, 420, tt, 3)]
                         else inr []) coco_classes in
  let r1 := detect_vehicles_ml two_decimals all_calls_succeed
              (blank_frame 480 640) flicker [] 0 400 10 in
  let r2 := detect_vehicles_ml two_decimals all_calls_succeed
              (blank_frame 480 641) flicker (ret_matches r1) (ret_counter r1)
              400 10 in
  ret_counter (detect_vehicles_ml two_decimals all_calls_succeed
                 (blank_frame 480 640) flicker (ret_matches r2)
                 (ret_counter r2) 400 10) = 0 + 2.
Proof.
  intros flicker r1 r2.
  apply (ml_dropout_recounted unit two_decimals all_calls_succeed
           (blank_frame 480 640) (blank_frame 480 641) (blank_frame 480 640)
           flicker [] 0 400 10 (300, 380, 340, 420, tt, 3)).
  - reflexivity.
  - reflexivity.
  - reflexivity.
  - reflexivity.
  - reflexivity.
  - reflexivity.
  - reflexivity.
  - vm_compute. split; reflexivity.
  - simpl. tauto.
Defined.

Section DetectorLoopFacts.

Variable Score : Type.
Variable format_score : Score -> string.
Variable cv_raises : DrawOp -> bool.

(** What the detection loop draws: three calls per detection when it
    completes, and never a count label. *)
Lemma detection_loop_ops cls detections : forall acc h,
  match detection_loop format_score cv_raises cls detections acc h with
  | Returns _ h' =>
      exists ops, extends (h_frame h') (h_frame h) ops /\
                  length ops = (3 * length detections)%nat /\
                  count_labels ops = []
  | Raises _ h' =>
      exists ops, extends (h_frame h') (h_frame h) ops /\
                  count_labels ops = []
  end.
Proof.
  induction detections as [|d rest IH]; intros acc h.
  - cbn [detection_loop]. unfold ret. exists [].
    split; [apply extends_refl|]. split; reflexivity.
  - destruct d as [[[[[x1 y1] x2] y2] score] label].
    cbn [detection_loop].
    unfold bind at 1. unfold cv at 1.
    destruct (cv_raises (Rectangle _ _ _ _)).
    { exists []. split; [apply extends_refl|reflexivity]. }
    unfold bind at 1. unfold cv at 1. cbn [h_frame h_matches].
    destruct (cv_raises (Circle _ _ _ _)).
    { eexists. split; [apply extends_draw, extends_refl|reflexivity]. }
    unfold bind at 1. unfold index_classes.
    destruct (py_index cls label) as [name|].
    2:{ unfold raise. cbn [h_frame]. eexists.
        split; [apply extends_draw, extends_draw, extends_refl|reflexivity]. }
    unfold ret at 1. unfold bind at 1. unfold cv at 1.
    cbn [h_frame h_matches].
    destruct (cv_raises (PutText _ _ _ _)).
    { cbn [h_frame]. eexists.
      split; [apply extends_draw, extends_draw, extends_refl|reflexivity]. }
    match goal with
    | |- context [detection_loop _ _ _ rest ?a ?h0] =>
        specialize (IH a h0); destruct (detection_loop _ _ _ rest a h0)
    end.
    + destruct IH as (ops & He & Hl & Hc). cbn [h_frame] in He.
      eexists. split; [|split].
      * unfold extends in *. rewrite He. unfold draw; cbn [shape0 shape1 pixels overlay].
        rewrite <- !app_assoc. reflexivity.
      * cbn [app length]. rewrite Hl. lia.
      * cbn [app]. exact Hc.
    + destruct IH as (ops & He & Hc). cbn [h_frame] in He.
      eexists. split.
      * unfold extends in *. rewrite He. unfold draw; cbn [shape0 shape1 pixels overlay].
        rewrite <- !app_assoc. reflexivity.
      * cbn [app]. exact Hc.
Qed.

(** With a library that never raises, the loop stops with [IndexError] as soon
    as a label does not index the class table. *)
Lemma detection_loop_bad_label cls detections : forall acc h,
  (forall op, cv_raises op = false) ->
  Exists (fun d : Detection Score =>
            let '(_, _, _, _, _, label) := d in py_index cls label = None)
         detections ->
  exists h', detection_loop format_score cv_raises cls detections acc h =
             Raises IndexError h'.
Proof.
  induction detections as [|d rest IH]; intros acc h Hcv Hex;
    [inversion Hex|].
  destruct d as [[[[[x1 y1] x2] y2] score] label].
  cbn [detection_loop]. unfold bind, cv, index_classes, ret, raise.
  rewrite !Hcv.
  destruct (py_index cls label) eqn:E.
  - rewrite Hcv. apply IH; [exact Hcv|].
    inversion Hex as [? ? Hbad|? ? Hlater]; subst; [congruence|exact Hlater].
  - eauto.
Qed.

End DetectorLoopFacts.

(** One detection whose label does not index the detector's class table makes
    the whole call fail soft: the handler reports [IndexError], and counter
    and pool are returned as passed in, so no detection of that frame is
    counted, not even those listed before the offending one. *)
Theorem ml_bad_label_discards_frame
    (Score : Type) (format_score : Score -> string)
    (cv_raises : DrawOp -> bool)
    (frame : Frame) (ml_detector : MLDetector Score)
    (matches : list Centroid) (vehicle_counter line_height offset : Z)
    (detections : list (Detection Score)) :
  detect_vehicles ml_detector frame = inr detections ->
  (forall op, cv_raises op = false) ->
  Exists (fun d : Detection Score =>
            let '(_, _, _, _, _, label) := d in
            py_index (classes ml_detector) label = None) detections ->
  let ml := detect_vehicles_ml format_score cv_raises frame ml_detector
              matches vehicle_counter line_height offset in
  printed ml = Some IndexError /\ ret_counter ml = vehicle_counter /\
  ret_matches ml = matches /\ arg_matches ml = matches.
Proof.
  intros Hd Hcv Hex ml. subst ml. rewrite detect_vehicles_ml_cases.
  cbn zeta. rewrite Hd, Hcv.
  match goal with
  | |- context [detection_loop _ _ ?cls detections [] ?h0] =>
      destruct (detection_loop_bad_label Score format_score cv_raises cls
                  detections [] h0 Hcv Hex) as (h' & E);
      pose proof (detection_loop_inv Score format_score cv_raises cls
                    detections [] h0) as Hinv
  end.
  rewrite E in Hinv |- *. cbn [h_matches] in Hinv.
  cbn [printed ret_counter ret_matches arg_matches]. auto.
Qed.

Lemma ml_bad_label_discards_frame_witness :
  let odd : MLDetector unit :=
    mkDetector (fun _ => inr [(300, 380, 340, 420, tt, 3);
                              (10, 10, 20, 20, tt, 17)]) coco_classes in
  ret_counter (detect_vehicles_ml two_decimals all_calls_succeed
                 (blank_frame 480 640) odd [] 0 400 10) = 0.
Proof.
  intros odd.
  apply (ml_bad_label_discards_frame unit two_decimals all_calls_succeed
           (blank_frame 480 640) odd [] 0 400 10
           [(300, 380, 340, 420, tt, 3); (10, 10, 20, 20, tt, 17)]).
  - reflexivity.
  - reflexivity.
  - apply Exists_cons_tl, Exists_cons_hd. reflexivity.
Defined.

Lemma centroid_of_between {Score : Type} (d : Detection Score) :
  let '(x1, y1, x2, y2, _, _) := d in
  Z.min x1 x2 <= fst (centroid_of d) <= Z.max x1 x2 /\
  Z.min y1 y2 <= snd (centroid_of d) <= Z.max y1 y2.
Proof.
  destruct d as [[[[[x1 y1] x2] y2] score] label]. cbn [centroid_of fst snd].
  pose proof (Z.div_mod (x1 + x2) 2 ltac:(lia)).
  pose proof (Z.mod_pos_bound (x1 + x2) 2 ltac:(lia)).
  pose proof (Z.div_mod (y1 + y2) 2 ltac:(lia)).
  pose proof (Z.mod_pos_bound (y1 + y2) 2 ltac:(lia)).
  lia.
Qed.

(** On a normal return, every centroid of the returned pool was carried in or
    is the midpoint of a current detection lying in the band, and in both
    cases some current midpoint is closer than 50 pixels to it; the returned
    pool has at most as many entries as the carried pool and the detections
    together.  Unlike the motion tracker's pool it cannot grow without
    detections to support it. *)
Theorem ml_pool_origin
    (Score : Type) (format_score : Score -> string)
    (cv_raises : DrawOp -> bool)
    (frame : Frame) (ml_detector : MLDetector Score)
    (matches : list Centroid) (vehicle_counter line_height offset : Z) :
  let ml := detect_vehicles_ml format_score cv_raises frame ml_detector
              matches vehicle_counter line_height offset in
  let line_y := clamped_line line_height (shape0 frame) in
  printed ml = None ->
  exists detections,
    detect_vehicles ml_detector frame = inr detections /\
    (forall m, In m (ret_matches ml) ->
       (In m matches \/
        exists d, In d detections /\ m = centroid_of d /\
                  crossing_band line_y offset (snd m)) /\
       exists d, In d detections /\ dist2 m (centroid_of d) < 50 * 50) /\
    (length (ret_matches ml) <= length matches + length detections)%nat.
Proof.
  intros ml line_y Hn.
  pose proof (detect_vehicles_ml_outcome Score format_score cv_raises frame
                ml_detector matches vehicle_counter line_height offset) as Ho.
  cbn zeta in Ho. fold ml line_y in Ho. rewrite Hn in Ho.
  destruct Ho as (detections & Hd & _ & Ha & Hr & _).
  destruct (count_new_added line_y offset (map centroid_of detections)
              matches vehicle_counter) as (added & Hf & _ & Hnd & Hiff).
  rewrite Hf in Ha.
  exists detections. split; [exact Hd|]. split.
  - intros m Hin. rewrite Hr, Ha in Hin. apply filter_In in Hin.
    destruct Hin as [Hin Hnear]. split.
    + apply in_app_or in Hin. destruct Hin as [Hin|Hin]; [now left|right].
      apply Hiff in Hin. destruct Hin as (Hc & Hb & _).
      apply in_map_iff in Hc. destruct Hc as (d & <- & Hdin).
      exists d. auto.
    + apply near_any_spec in Hnear. destruct Hnear as (c & Hc & Hlt).
      apply in_map_iff in Hc. destruct Hc as (d & <- & Hdin).
      exists d. auto.
  - rewrite Hr, Ha.
    pose proof (filter_length
                  (fun m => existsb (fun c => near m c)
                                    (map centroid_of detections))
                  (matches ++ added)) as Hlen.
    rewrite length_app in Hlen.
    assert (Hadd : (length added <= length (map centroid_of detections))%nat).
    { apply NoDup_incl_length; [exact Hnd|].
      intros c Hin. now apply Hiff in Hin. }
    rewrite length_map in Hadd.
    eapply Nat.le_trans; [|apply Nat.add_le_mono_l; exact Hadd].
    lia.
Qed.

Lemma ml_pool_origin_witness :
  Nat.le (length (ret_matches (detect_vehicles_ml two_decimals
                                 all_calls_succeed (blank_frame 480 640)
                                 one_car [(320, 350); (300, 370)] 1 400 10)))
         (2 + 1).
Proof.
  destruct (ml_pool_origin unit two_decimals all_calls_succeed
              (blank_frame 480 640) one_car [(320, 350); (300, 370)] 1 400 10)
    as (ds & Hd & _ & Hlen); [reflexivity|].
  cbn [one_car detect_vehicles] in Hd. injection Hd as <-. exact Hlen.
Defined.

(** What the detector tracker draws.  On a normal return: the line, three
    calls per detection (box, dot, class label), then the count label, whose
    text shows the counter that the call returns.  When an exception was
    caught, whatever had been drawn stays on the frame, but it never includes
    a count label: a failed frame shows no count.  Shape and contents of the
    frame are those passed in either way. *)
Theorem ml_overlay
    (Score : Type) (format_score : Score -> string)
    (cv_raises : DrawOp -> bool)
    (frame : Frame) (ml_detector : MLDetector Score)
    (matches : list Centroid) (vehicle_counter line_height offset : Z) :
  let ml := detect_vehicles_ml format_score cv_raises frame ml_detector
              matches vehicle_counter line_height offset in
  let line_y := clamped_line line_height (shape0 frame) in
  match printed ml with
  | None =>
      exists detections ops,
        detect_vehicles ml_detector frame = inr detections /\
        ret_frame ml =
          mkFrame (shape0 frame) (shape1 frame) (pixels frame)
            (overlay frame ++
             Line (0, line_y) (shape1 frame, line_y) (0, 255, 0) 2 :: ops ++
             [PutTextRect ("Vehicle Count: " ++ str (ret_counter ml))
                          (10, 30) 2 2 10 (0, 200, 0)]) /\
        length ops = (3 * length detections)%nat
  | Some _ =>
      exists ops,
        ret_frame ml =
          mkFrame (shape0 frame) (shape1 frame) (pixels frame)
                  (overlay frame ++ ops) /\
        count_labels ops = []
  end.
Proof.
  intros ml line_y. subst ml. rewrite detect_vehicles_ml_cases.
  cbn zeta. fold line_y.
  destruct (detect_vehicles ml_detector frame) as [e|detections] eqn:Hd.
  { cbn [printed ret_frame]. exists []. split; [apply extends_refl|reflexivity]. }
  destruct (cv_raises (Line _ _ _ _)).
  { cbn [printed ret_frame]. exists []. split; [apply extends_refl|reflexivity]. }
  match goal with
  | |- context [detection_loop _ _ ?cls detections [] ?h0] =>
      pose proof (detection_loop_ops Score format_score cv_raises cls
                    detections [] h0) as Hl;
      destruct (detection_loop _ _ cls detections [] h0) as [cs h1|e h1]
  end.
  - destruct Hl as (ops & He & Hlen & Hc). cbn [h_frame] in He.
    destruct (cv_raises (PutTextRect _ _ _ _ _ _)).
    + cbn [printed ret_frame]. eexists. split.
      * unfold extends in He. rewrite He.
        unfold draw; cbn [shape0 shape1 pixels overlay].
        rewrite <- !app_assoc. reflexivity.
      * cbn [app count_labels flat_map]. exact Hc.
    + cbn [printed ret_frame ret_counter].
      exists detections, ops. split; [reflexivity|]. split; [|exact Hlen].
      unfold extends in He. rewrite He.
      unfold draw; cbn [shape0 shape1 pixels overlay].
      rewrite <- !app_assoc. reflexivity.
  - destruct Hl as (ops & He & Hc). cbn [h_frame] in He.
    cbn [printed ret_frame]. eexists. split.
    + unfold extends in He. rewrite He.
      unfold draw; cbn [shape0 shape1 pixels overlay].
      rewrite <- !app_assoc. reflexivity.
    + cbn [app count_labels flat_map]. exact Hc.
Qed.

(** * The shipped detector *)

Section DetectorFilterFacts.

Variable Score : Type.
Variable infer : Frame -> Exn + list (Detector.Prediction Score).
Variable above_threshold : Score -> bool.
Variable downscaled : Frame -> bool.
Variable unscale : Frame -> Z -> Z.

Lemma keep_vehicle_eq frame acc p :
  Detector.keep_vehicle Score above_threshold downscaled unscale frame acc p =
  if Detector.kept Score above_threshold p
  then acc ++ [let '((x1, y1, x2, y2), score, label) := p in
               if downscaled frame
               then (unscale frame x1, unscale frame y1,
                     unscale frame x2, unscale frame y2, score, label)
               else (x1, y1, x2, y2, score, label)]
  else acc.
Proof.
  destruct p as [[[[[x1 y1] x2] y2] score] label].
  unfold Detector.keep_vehicle, Detector.kept.
  destruct (above_threshold score && _); [|reflexivity].
  now destruct (downscaled frame).
Qed.

Lemma keep_vehicle_loop frame predictions : forall acc,
  map (Detector.detection_tag Score)
      (fold_left (Detector.keep_vehicle Score above_threshold downscaled
                    unscale frame) predictions acc) =
  map (Detector.detection_tag Score) acc ++
  map (Detector.prediction_tag Score)
      (filter (Detector.kept Score above_threshold) predictions).
Proof.
  induction predictions as [|p ps IH]; intros acc; cbn [fold_left filter].
  - simpl. now rewrite app_nil_r.
  - rewrite keep_vehicle_eq.
    destruct (Detector.kept Score above_threshold p); [|apply IH].
    rewrite IH, map_app, <- app_assoc. do 2 f_equal.
    destruct p as [[[[[x1 y1] x2] y2] score] label].
    now destruct (downscaled frame).
Qed.

Lemma keep_vehicle_loop_same frame predictions : forall acc,
  downscaled frame = false ->
  fold_left (Detector.keep_vehicle Score above_threshold downscaled unscale
               frame) predictions acc =
  acc ++ map (Detector.prediction_detection Score)
             (filter (Detector.kept Score above_threshold) predictions).
Proof.
  intros acc Hs. revert acc.
  induction predictions as [|p ps IH]; intros acc; cbn [fold_left filter].
  - simpl. now rewrite app_nil_r.
  - rewrite keep_vehicle_eq.
    destruct (Detector.kept Score above_threshold p); [|apply IH].
    rewrite IH, <- app_assoc. do 2 f_equal.
    destruct p as [[[[[x1 y1] x2] y2] score] label].
    now rewrite Hs.
Qed.


End DetectorFilterFacts.

(** [VehicleDetector.detect_vehicles] returns, in the network's order, the
    predictions whose score is above the confidence threshold and whose label
    is one of 2, 3, 5, 6, 7, 8, with score and label untouched (and the box
    too when the frame was not downscaled); if inference raises, so does the
    method.  Label 4, which the class table names motorcycle, is never let
    through, while label 5, named airplane, is. *)
Theorem detector_keeps_vehicle_classes
    (Score : Type) (infer : Frame -> Exn + list (Detector.Prediction Score))
    (above_threshold : Score -> bool) (downscaled : Frame -> bool)
    (unscale : Frame -> Z -> Z) (frame : Frame) :
  match infer frame with
  | inl e =>
      Detector.detect_vehicles Score infer above_threshold downscaled unscale
        frame = inl e
  | inr predictions =>
      exists detections,
        Detector.detect_vehicles Score infer above_threshold downscaled
          unscale frame = inr detections /\
        map (Detector.detection_tag Score) detections =
          map (Detector.prediction_tag Score)
              (filter (Detector.kept Score above_threshold) predictions) /\
        (downscaled frame = false ->
         detections =
           map (Detector.prediction_detection Score)
               (filter (Detector.kept Score above_threshold) predictions)) /\
        (forall d, In d detections ->
           above_threshold (fst (Detector.detection_tag Score d)) = true /\
           In (snd (Detector.detection_tag Score d)) [2; 3; 5; 6; 7; 8]) /\
        (length detections <= length predictions)%nat
  end
  /\ py_index Detector.classes 4 = Some "motorcycle"%string
  /\ existsb (Z.eqb 4) Detector.vehicle_classes = false
  /\ py_index Detector.classes 5 = Some "airplane"%string
  /\ existsb (Z.eqb 5) Detector.vehicle_classes = true.
Proof.
  split; [|repeat split].
  unfold Detector.detect_vehicles.
  destruct (infer frame) as [e|predictions]; [reflexivity|].
  eexists. split; [reflexivity|].
  pose proof (keep_vehicle_loop Score above_threshold downscaled unscale
                frame predictions []) as Htag.
  cbn [map app] in Htag.
  split; [exact Htag|]. split; [|split].
  - intros Hs.
    now rewrite (keep_vehicle_loop_same Score above_threshold downscaled
                   unscale frame predictions [] Hs).
  - intros d Hin.
    apply (in_map (Detector.detection_tag Score)) in Hin.
    rewrite Htag in Hin. apply in_map_iff in Hin.
    destruct Hin as ([[box score] label] & Heq & Hp).
    apply filter_In in Hp. destruct Hp as [_ Hk].
    rewrite <- Heq. cbn [Detector.prediction_tag fst snd].
    unfold Detector.kept in Hk. apply andb_true_iff in Hk.
    destruct Hk as [Ha Hv]. split; [exact Ha|].
    unfold Detector.vehicle_classes in Hv. cbn [existsb] in Hv.
    rewrite !orb_true_iff, !Z.eqb_eq in Hv. cbn [In].
    destruct Hv as [->|[->|[->|[->|[->|[->|Hv]]]]]];
      [| | | | | |discriminate]; auto 10.
  - rewrite <- (length_map (Detector.detection_tag Score)), Htag, length_map.
    apply List.filter_length_le.
Qed.




(** * Positions on disk and the application object *)

Section OrchestratorFacts.
Import Orchestrator.

Variable path_join : string -> string -> string.
Variable splitext_root : string -> string.
Variable clock_log : nat -> string.
Variable clock_file : nat -> string.
Variable failed_write : FS -> string -> FS.
Variable not_a_pickle : string -> PyError.
Variable ui_raises : UiCall -> option string.
Variable rectangle_id : Z -> Z -> Z -> Z -> Z.

Lemma logged_nil s : logged [] s = s.
Proof.
  destruct s. unfold logged, set_ticks, set_log_data. cbn.
  now rewrite app_nil_r.
Qed.

Lemma logged_logged e1 e2 s : logged e2 (logged e1 s) = logged (e1 ++ e2) s.
Proof.
  destruct s. unfold logged, set_ticks, set_log_data. cbn.
  rewrite <- app_assoc, length_app. f_equal. lia.
Qed.

Lemma log_event_eq message s :
  log_event clock_log message s =
  Ok tt (logged [log_entry (clock_log (ticks s)) message] s).
Proof. reflexivity. Qed.

(** [load_parking_positions] with the application's logger: it always
    returns, with what is stored or the empty list, and changes nothing but
    the log. *)
Lemma load_parking_positions_spec config_dir image s :
  exists entries,
    load_parking_positions path_join splitext_root config_dir image
      (Some (log_event clock_log)) s =
    Ok (stored_positions (fs s) config_dir
          (position_file path_join splitext_root config_dir image))
       (logged entries s) /\
    (length entries <= 1)%nat /\
    (path_exists (fs s) config_dir = true ->
     match load_pickle (fs s)
             (position_file path_join splitext_root config_dir image) with
     | inr _ => True
     | inl _ => path_exists (fs s)
                  (position_file path_join splitext_root config_dir image)
                = false
     end ->
     entries = []).
Proof.
  unfold load_parking_positions, stored_positions, try_except, bind, get.
  set (pos := position_file path_join splitext_root config_dir image).
  destruct (path_exists (fs s) config_dir) eqn:Hc; cbn [negb andb].
  - destruct (path_exists (fs s) pos) eqn:Hp.
    + destruct (load_pickle (fs s) pos) as [e|positions] eqn:Hl.
      * unfold raise. destruct (kind e); unfold notify; rewrite log_event_eq;
          unfold ret; eexists; (split; [reflexivity|]);
          (split; [simpl; lia|]); intros _ H; discriminate.
      * unfold ret. exists []. rewrite logged_nil.
        split; [reflexivity|]. split; [simpl; lia|reflexivity].
    + unfold ret. exists []. rewrite logged_nil.
      split; [reflexivity|]. split; [simpl; lia|reflexivity].
  - unfold raise. cbn [kind]. unfold notify. rewrite log_event_eq.
    unfold ret. eexists. split; [reflexivity|].
    split; [simpl; lia|]. intros H. discriminate.
Qed.

Lemma image_loads_logged entries s :
  image_loads (logged entries s) = image_loads s.
Proof. reflexivity. Qed.

(** [load_reference_image()] without an argument: it always returns; the
    position list becomes what is stored when the image can be loaded and is
    left alone otherwise. *)
Lemma load_reference_image_spec s :
  exists b s',
    load_reference_image path_join splitext_root clock_log ui_raises None s =
    Ok b s' /\
    posList s' =
      (if image_loads s
       then stored_positions (fs s) (config_dir s)
              (position_file path_join splitext_root (config_dir s)
                 (current_reference_image s))
       else posList s) /\
    fs s' = fs s /\ config_dir s' = config_dir s /\
    current_reference_image s' = current_reference_image s /\
    setup_tab_controller s' = setup_tab_controller s /\
    mouse s' = mouse s.
Proof.
  unfold load_reference_image, image_loads, try_except.
  unfold bind at 1. unfold ret at 1. unfold bind at 1. unfold get at 1.
  destruct (String.eqb (current_reference_image s) EmptyString) eqn:He; cbn [negb andb].
  { unfold bind. rewrite log_event_eq. unfold ret.
    do 2 eexists. split; [reflexivity|]. repeat split. }
  destruct (path_exists (fs s) (current_reference_image s)) eqn:Hp;
    cbn [negb andb].
  2:{ unfold bind. rewrite log_event_eq. unfold ret.
      do 2 eexists. split; [reflexivity|]. repeat split. }
  destruct (imread (fs s) (current_reference_image s)) as [[height width]|]
    eqn:Hi.
  2:{ unfold bind. rewrite log_event_eq. unfold ret.
      do 2 eexists. split; [reflexivity|]. repeat split. }
  unfold bind at 1. unfold modify at 1. unfold bind at 1.
  match goal with
  | |- context [load_parking_positions _ _ ?c ?i _ ?s0] =>
      destruct (load_parking_positions_spec c i s0) as (entries & -> & _)
  end.
  unfold bind at 1. unfold modify at 1. unfold bind at 1.
  destruct (setup_tab_controller s) eqn:Hs.
  - unfold ui. destruct (ui_raises _) as [msg|].
    + unfold raise. unfold bind. rewrite log_event_eq. unfold ret.
      do 2 eexists. split; [reflexivity|]. repeat split; exact Hs.
    + unfold ret. do 2 eexists. split; [reflexivity|].
      repeat split; exact Hs.
  - unfold ret. do 2 eexists. split; [reflexivity|]. repeat split; exact Hs.
Qed.

Lemma first_hit_spec x y l k :
  first_hit x y l = Some k ->
  exists r, nth_error l k = Some r /\ contains_click x y r = true /\
            forall j r', (j < k)%nat -> nth_error l j = Some r' ->
                         contains_click x y r' = false.
Proof.
  revert k. induction l as [|r l IH]; intros k H; [discriminate|].
  cbn [first_hit] in H. destruct (contains_click x y r) eqn:Hc.
  - injection H as <-. exists r. split; [reflexivity|]. split; [exact Hc|].
    intros j r' Hj. lia.
  - destruct (first_hit x y l) as [k'|]; [|discriminate].
    injection H as <-. destruct (IH k' eq_refl) as (r0 & Hn & Hh & Hfirst).
    exists r0. split; [exact Hn|]. split; [exact Hh|].
    intros [|j] r' Hj Hr'.
    + cbn in Hr'. injection Hr' as <-. exact Hc.
    + cbn in Hr'. apply (Hfirst j); [lia|exact Hr'].
Qed.

Lemma first_hit_none x y l :
  first_hit x y l = None -> forall r, In r l -> contains_click x y r = false.
Proof.
  induction l as [|r l IH]; intros H r0 Hin; [contradiction|].
  cbn [first_hit] in H. destruct (contains_click x y r) eqn:Hc; [discriminate|].
  destruct (first_hit x y l); [discriminate|].
  destruct Hin as [<-|Hin]; [exact Hc|]. now apply IH.
Qed.

Lemma right_click_scan_spec x y rest : forall i s,
  match first_hit x y rest with
  | None =>
      right_click_scan path_join splitext_root clock_log ui_raises x y i rest s
      = Ok tt s
  | Some k =>
      exists s',
        right_click_scan path_join splitext_root clock_log ui_raises x y i
          rest s = Ok tt s' /\
        posList s' =
          (if image_loads s
           then stored_positions (fs s) (config_dir s)
                  (position_file path_join splitext_root (config_dir s)
                     (current_reference_image s))
           else pop (i + k) (posList s)) /\
        fs s' = fs s /\ config_dir s' = config_dir s /\
        current_reference_image s' = current_reference_image s
  end.
Proof.
  induction rest as [|[[[px py] w] h] rest IH]; intros i s;
    cbn [first_hit right_click_scan]; [reflexivity|].
  unfold contains_click at 1.
  destruct ((px <=? x) && (x <=? px + w) && ((py <=? y) && (y <=? py + h))).
  - unfold bind at 1. unfold get at 1. unfold bind at 1. unfold modify at 1.
    unfold bind at 1. rewrite log_event_eq. unfold bind at 1.
    match goal with
    | |- context [load_reference_image _ _ _ _ None ?s0] =>
        destruct (load_reference_image_spec s0)
          as (b & s' & -> & Hp & Hf & Hc & Hi & _)
    end.
    unfold ret. exists s'. split; [reflexivity|].
    rewrite Hp, Hf, Hc, Hi. rewrite Nat.add_0_r.
    repeat split.
  - specialize (IH (S i) s).
    destruct (first_hit x y rest) as [k|]; cbn [option_map]; [|exact IH].
    destruct IH as (s' & E & Hp & Hrest). exists s'. split; [exact E|].
    split; [|exact Hrest]. rewrite Hp.
    replace (i + S k)%nat with (S i + k)%nat by lia. reflexivity.
Qed.

Lemma save_parking_positions_spec config_dir image positions s :
  save_parking_positions path_join splitext_root failed_write config_dir image
    positions (Some (log_event clock_log)) s =
  let pos_file := position_file path_join splitext_root config_dir image in
  match open_for_write (fs s) pos_file with
  | None =>
      Ok true
         (logged [log_entry (clock_log (ticks s))
                    ("Saved " ++ str (Z.of_nat (length positions)) ++
                     " parking spaces for " ++ image)]
            (set_fs (write_pickle (fs s) pos_file positions) s))
  | Some e =>
      Ok false
         (logged [log_entry (clock_log (ticks s))
                    ("Failed to save parking spaces: " ++ text e)]
            (set_fs (failed_write (fs s) pos_file) s))
  end.
Proof.
  cbn zeta. unfold save_parking_positions, try_except, bind, get.
  destruct (open_for_write (fs s) _) as [e|]; reflexivity.
Qed.

Lemma stored_after_write f config_dir pos_file positions :
  path_exists f config_dir = true ->
  stored_positions (write_pickle f pos_file positions) config_dir pos_file =
  positions.
Proof.
  intros Hc. unfold stored_positions, write_pickle.
  cbn [path_exists load_pickle]. rewrite String.eqb_refl, Hc.
  now destruct (String.eqb config_dir pos_file).
Qed.

(** [load_parking_positions] never raises and never touches the disk or the
    position list.  It returns what is stored when the configuration
    directory exists, the position file exists and unpickles, and the empty
    list in every other case; it logs at most one line, and none at all when
    only the position file is missing. *)
Theorem load_parking_positions_falls_back config_dir image s :
  exists entries,
    load_parking_positions path_join splitext_root config_dir image
      (Some (log_event clock_log)) s =
    Ok (stored_positions (fs s) config_dir
          (position_file path_join splitext_root config_dir image))
       (logged entries s)
    /\ (length entries <= 1)%nat
    /\ (path_exists (fs s) config_dir = true ->
        path_exists (fs s)
          (position_file path_join splitext_root config_dir image) = false ->
        entries = [])
    /\ (path_exists (fs s) config_dir = false ->
        stored_positions (fs s) config_dir
          (position_file path_join splitext_root config_dir image) = [])
    /\ (forall e,
          load_pickle (fs s)
            (position_file path_join splitext_root config_dir image) = inl e ->
          stored_positions (fs s) config_dir
            (position_file path_join splitext_root config_dir image) = [])
    /\ posList (logged entries s) = posList s
    /\ fs (logged entries s) = fs s.
Proof.
  destruct (load_parking_positions_spec config_dir image s)
    as (entries & E & Hlen & Hsilent).
  exists entries. split; [exact E|]. split; [exact Hlen|].
  split; [|split; [|split; [|split; reflexivity]]].
  - intros Hc Hp. apply Hsilent; [exact Hc|].
    now destruct (load_pickle _ _).
  - intros Hc. unfold stored_positions. now rewrite Hc.
  - intros e He. unfold stored_positions. rewrite He.
    now destruct (_ && _).
Qed.

(** Saving and loading round-trip.  If [save_parking_spaces] returns [True]
    and the configuration directory exists, then the position list is as it
    was, the log has two more lines, and a later [load_parking_positions()]
    for the same image, whatever happened to the list in between, restores
    the list that was saved, sets the total to its length, the free count to 0
    and the occupied count to the total, and logs nothing. *)
Theorem save_then_load_round_trip s s1 :
  app_save_parking_spaces path_join splitext_root clock_log failed_write s =
    Ok true s1 ->
  path_exists (fs s) (config_dir s) = true ->
  posList s1 = posList s
  /\ length (log_data s1) = (length (log_data s) + 2)%nat
  /\ forall s2,
       fs s2 = fs s1 -> config_dir s2 = config_dir s ->
       current_reference_image s2 = current_reference_image s ->
       exists s3,
         app_load_parking_positions path_join splitext_root clock_log None s2
         = Ok tt s3 /\
         posList s3 = posList s /\
         total_spaces s3 = Z.of_nat (length (posList s)) /\
         free_spaces s3 = 0 /\
         occupied_spaces s3 = total_spaces s3 /\
         log_data s3 = log_data s2.
Proof.
  unfold app_save_parking_spaces, try_except.
  unfold bind at 1. unfold get at 1.
  destruct (String.eqb (current_reference_image s) EmptyString).
  { unfold bind. rewrite log_event_eq. unfold ret. discriminate. }
  unfold bind at 1. rewrite save_parking_positions_spec. cbn zeta.
  destruct (open_for_write (fs s) _) as [e|] eqn:Ho.
  { unfold bind, ret. discriminate. }
  unfold bind at 1. unfold bind at 1. unfold get at 1.
  rewrite log_event_eq. unfold ret.
  intros E Hc. injection E as <-.
  split; [reflexivity|]. split.
  { cbn. rewrite !length_app. cbn. lia. }
  intros s2 Hf Hc2 Hi2.
  unfold app_load_parking_positions.
  unfold bind at 1. unfold get at 1. unfold bind at 1.
  destruct (load_parking_positions_spec (config_dir s2)
              (current_reference_image s2) s2) as (entries & -> & _ & Hsilent).
  assert (Hstored :
            stored_positions (fs s2) (config_dir s2)
              (position_file path_join splitext_root (config_dir s2)
                 (current_reference_image s2)) = posList s).
  { rewrite Hf, Hc2, Hi2. cbn [fs logged set_ticks set_log_data set_fs].
    now apply stored_after_write. }
  assert (Hnil : entries = []).
  { apply Hsilent.
    - rewrite Hf, Hc2. cbn [fs logged set_ticks set_log_data set_fs].
      unfold write_pickle. cbn [path_exists]. rewrite Hc.
      now destruct (String.eqb _ _).
    - rewrite Hf, Hc2, Hi2. cbn [fs logged set_ticks set_log_data set_fs].
      unfold write_pickle. cbn [load_pickle]. now rewrite String.eqb_refl. }
  subst entries. rewrite logged_nil, Hstored.
  unfold bind, modify, ret. eexists. split; [reflexivity|].
  repeat split.
Qed.

Lemma on_right_click_spec x y s :
  setup_tab_controller s = true ->
  match first_hit x y (posList s) with
  | None =>
      on_right_click path_join splitext_root clock_log ui_raises x y s = Ok tt s
  | Some k =>
      exists s',
        on_right_click path_join splitext_root clock_log ui_raises x y s =
        Ok tt s' /\
        posList s' =
          (if image_loads s
           then stored_positions (fs s) (config_dir s)
                  (position_file path_join splitext_root (config_dir s)
                     (current_reference_image s))
           else pop k (posList s))
  end.
Proof.
  intros Hs.
  assert (E : on_right_click path_join splitext_root clock_log ui_raises x y s
              = match right_click_scan path_join splitext_root clock_log
                        ui_raises x y 0 (posList s) s with
                | Ok a s' => Ok a s'
                | Raised e s' =>
                    log_event clock_log
                      ("Error handling right click: " ++ text e) s'
                end).
  { unfold on_right_click, try_except, bind, get. now rewrite Hs. }
  rewrite E. clear E.
  pose proof (right_click_scan_spec x y (posList s) 0 s) as H.
  destruct (first_hit x y (posList s)) as [k|].
  - destruct H as (s' & -> & Hp & _). exists s'. split; [reflexivity|].
    exact Hp.
  - now rewrite H.
Qed.

Lemma clear_all_spaces_spec s :
  exists s',
    clear_all_spaces path_join splitext_root clock_log ui_raises s = Ok true s'
    /\ posList s' =
       (if setup_tab_controller s && image_loads s
        then stored_positions (fs s) (config_dir s)
               (position_file path_join splitext_root (config_dir s)
                  (current_reference_image s))
        else []).
Proof.
  unfold clear_all_spaces, try_except.
  unfold bind at 1. unfold modify at 1. unfold bind at 1.
  rewrite log_event_eq. unfold bind at 1. unfold get at 1.
  cbn [setup_tab_controller logged set_ticks set_log_data set_posList].
  destruct (setup_tab_controller s); cbn [andb].
  - unfold bind at 1. unfold bind at 1.
    match goal with
    | |- context [load_reference_image _ _ _ _ None ?s0] =>
        destruct (load_reference_image_spec s0) as (b & s' & -> & Hp & _)
    end.
    unfold ret. exists s'. split; [reflexivity|]. rewrite Hp.
    change (image_loads (logged _ (set_posList [] s))) with (image_loads s).
    now destruct (image_loads s).
  - unfold bind, ret. eexists. split; reflexivity.
Qed.

Lemma pop_length {A : Type} (l : list A) k r :
  nth_error l k = Some r -> (length (pop k l) + 1 = length l)%nat.
Proof.
  intros H. assert (Hk : (k < length l)%nat)
    by (apply nth_error_Some; congruence).
  unfold pop. rewrite length_app, length_firstn, length_skipn. lia.
Qed.

(** Right-click while the reference image cannot be loaded (no image
    selected, file missing, or unreadable): the first region of the list
    whose rectangle, borders included, contains the click is removed and the
    others keep their order; with no such region, or before the setup tab
    exists, nothing changes at all. *)
Theorem right_click_removes_first_hit x y s :
  image_loads s = false ->
  (setup_tab_controller s = false ->
   on_right_click path_join splitext_root clock_log ui_raises x y s = Ok tt s)
  /\ (setup_tab_controller s = true ->
      match first_hit x y (posList s) with
      | None =>
          on_right_click path_join splitext_root clock_log ui_raises x y s
          = Ok tt s /\
          forall r, In r (posList s) -> contains_click x y r = false
      | Some k =>
          exists s' r,
            on_right_click path_join splitext_root clock_log ui_raises x y s
            = Ok tt s' /\
            posList s' = firstn k (posList s) ++ skipn (S k) (posList s) /\
            (length (posList s') + 1 = length (posList s))%nat /\
            nth_error (posList s) k = Some r /\
            contains_click x y r = true /\
            (forall j r', (j < k)%nat -> nth_error (posList s) j = Some r' ->
                          contains_click x y r' = false)
      end).
Proof.
  intros Hi. split.
  - intros Hs. unfold on_right_click, try_except, bind, get. now rewrite Hs.
  - intros Hs. pose proof (on_right_click_spec x y s Hs) as H.
    destruct (first_hit x y (posList s)) as [k|] eqn:Hh.
    + destruct H as (s' & E & Hp). rewrite Hi in Hp.
      destruct (first_hit_spec x y (posList s) k Hh) as (r & Hn & Hc & Hf).
      exists s', r. split; [exact E|]. split; [exact Hp|].
      split; [rewrite Hp; now apply (pop_length _ _ r)|].
      split; [exact Hn|]. split; [exact Hc|exact Hf].
    + split; [exact H|]. now apply first_hit_none.
Qed.

(** While the reference image can be loaded, both ways of deleting reload the
    positions from disk before they return.  After a right-click that hits a
    region, and after Clear All, the position list is what is stored for the
    current image (the empty list if nothing is stored): regions drawn since
    the last save are discarded, and regions that are in the saved file are
    back. *)
Theorem deleting_reloads_from_disk x y s :
  setup_tab_controller s = true -> image_loads s = true ->
  let stored := stored_positions (fs s) (config_dir s)
                  (position_file path_join splitext_root (config_dir s)
                     (current_reference_image s)) in
  (first_hit x y (posList s) <> None ->
   exists s',
     on_right_click path_join splitext_root clock_log ui_raises x y s = Ok tt s'
     /\ posList s' = stored)
  /\ exists s',
       clear_all_spaces path_join splitext_root clock_log ui_raises s =
       Ok true s' /\ posList s' = stored.
Proof.
  intros Hs Hi stored. split.
  - intros Hh. pose proof (on_right_click_spec x y s Hs) as H.
    destruct (first_hit x y (posList s)) as [k|]; [|congruence].
    destruct H as (s' & E & Hp). rewrite Hi in Hp. now exists s'.
  - destruct (clear_all_spaces_spec s) as (s' & E & Hp).
    rewrite Hs, Hi in Hp. now exists s'.
Qed.

(** Without a loadable reference image Clear All does empty the list, and
    it reports success in every case. *)
Theorem clear_all_spaces_result s :
  exists s',
    clear_all_spaces path_join splitext_root clock_log ui_raises s = Ok true s'
    /\ (image_loads s = false -> posList s' = [])
    /\ (setup_tab_controller s = false -> posList s' = []).
Proof.
  destruct (clear_all_spaces_spec s) as (s' & E & Hp).
  exists s'. split; [exact E|]. split; intros H; rewrite H in Hp.
  - now rewrite andb_false_r in Hp.
  - exact Hp.
Qed.

(** A saved layout cannot be changed by deleting.  Once [save_parking_spaces]
    has returned [True] (configuration directory present, reference image
    loadable), a right-click anywhere and Clear All both leave the position
    list exactly as it was saved. *)
Theorem saved_layout_survives_deleting x y s s1 :
  app_save_parking_spaces path_join splitext_root clock_log failed_write s =
    Ok true s1 ->
  path_exists (fs s) (config_dir s) = true ->
  setup_tab_controller s = true ->
  path_exists (fs s) (current_reference_image s) = true ->
  imread (fs s) (current_reference_image s) <> None ->
  (exists s2,
     on_right_click path_join splitext_root clock_log ui_raises x y s1 =
     Ok tt s2 /\ posList s2 = posList s)
  /\ exists s2,
       clear_all_spaces path_join splitext_root clock_log ui_raises s1 =
       Ok true s2 /\ posList s2 = posList s.
Proof.
  unfold app_save_parking_spaces, try_except.
  unfold bind at 1. unfold get at 1.
  destruct (String.eqb (current_reference_image s) EmptyString) eqn:He.
  { unfold bind. rewrite log_event_eq. unfold ret. discriminate. }
  unfold bind at 1. rewrite save_parking_positions_spec. cbn zeta.
  destruct (open_for_write (fs s) _) as [e|] eqn:Ho.
  { unfold bind, ret. discriminate. }
  unfold bind at 1. unfold bind at 1. unfold get at 1.
  rewrite log_event_eq. unfold ret.
  intros E Hc Hs Hp Hi. injection E as <-.
  set (pos := position_file path_join splitext_root (config_dir s)
                (current_reference_image s)) in *.
  set (s1 := logged _ (logged _ _)).
  assert (Hs1 : setup_tab_controller s1 = true) by exact Hs.
  assert (Hp1 : posList s1 = posList s) by reflexivity.
  assert (Hl1 : image_loads s1 = true).
  { unfold image_loads. subst s1.
    cbn [current_reference_image fs logged set_ticks set_log_data set_fs].
    rewrite He. unfold write_pickle. cbn [path_exists imread negb andb].
    rewrite Hp. destruct (String.eqb _ pos); cbn [andb];
      destruct (imread (fs s) (current_reference_image s)); congruence. }
  assert (Hst : stored_positions (fs s1) (config_dir s1)
                  (position_file path_join splitext_root (config_dir s1)
                     (current_reference_image s1)) = posList s).
  { subst s1.
    cbn [current_reference_image config_dir fs logged set_ticks set_log_data
         set_fs].
    now apply stored_after_write. }
  split.
  - pose proof (on_right_click_spec x y s1 Hs1) as H.
    destruct (first_hit x y (posList s1)) as [k|].
    + destruct H as (s2 & E & Hq). rewrite Hl1, Hst in Hq. now exists s2.
    + exists s1. split; [exact H|exact Hp1].
  - destruct (clear_all_spaces_spec s1) as (s2 & E & Hq).
    rewrite Hs1, Hl1, Hst in Hq. now exists s2.
Qed.

(** A handler that only logs the exception leaves the position list as the
    guarded body left it. *)
Lemma try_log_posList (body : Act unit) (f : PyError -> string) s :
  posList (state_of (try_except body (fun e => log_event clock_log (f e)) s)) =
  posList (state_of (body s)).
Proof.
  unfold try_except. destruct (body s); [reflexivity|].
  rewrite log_event_eq. reflexivity.
Qed.

Lemma on_mouse_down_spec x y s :
  on_mouse_down clock_log x y s =
  Ok tt (if setup_tab_controller s
         then set_mouse (Some (mkMouse true x y None)) s else s).
Proof.
  unfold on_mouse_down, try_except, bind, get, modify, ret.
  now destruct (setup_tab_controller s).
Qed.

(** What [on_mouse_up] does to the position list, whatever the toolkit
    does: nothing, or one appended region wider and higher than 20. *)
Lemma on_mouse_up_posList x y s :
  posList (state_of (on_mouse_up clock_log ui_raises x y s)) = posList s \/
  exists m,
    mouse s = Some m /\ drawing m = true /\
    20 < Z.max (start_x m) x - Z.min (start_x m) x /\
    20 < Z.max (start_y m) y - Z.min (start_y m) y /\
    posList (state_of (on_mouse_up clock_log ui_raises x y s)) =
    posList s ++ [(Z.min (start_x m) x, Z.min (start_y m) y,
                   Z.max (start_x m) x - Z.min (start_x m) x,
                   Z.max (start_y m) y - Z.min (start_y m) y)].
Proof.
  unfold on_mouse_up. rewrite try_log_posList.
  cbv beta iota delta [bind get get_mouse modify ret raise ui].
  destruct (setup_tab_controller s); [|left; reflexivity].
  destruct (mouse s) as [m|]; [|left; reflexivity].
  destruct (drawing m) eqn:Hd; [|left; reflexivity].
  destruct (current_rect m) as [item|];
    [destruct (truthy (Some item));
     [destruct (ui_raises (CanvasDelete item)); [left; reflexivity|]|]|];
    (destruct ((Z.max (start_x m) x - Z.min (start_x m) x >? 20) &&
               (Z.max (start_y m) y - Z.min (start_y m) y >? 20)) eqn:Hbig;
     [right|left; reflexivity];
     exists m; split; [reflexivity|]; split; [exact Hd|];
     split; [lia|]; split; [lia|];
     match goal with
     | |- context [ui_raises ?c] => destruct (ui_raises c)
     end; rewrite ?log_event_eq; reflexivity).
Qed.

Lemma on_mouse_move_posList x y s :
  posList (state_of (on_mouse_move clock_log ui_raises rectangle_id x y s)) =
  posList s.
Proof.
  unfold on_mouse_move, try_except.
  unfold bind at 1. unfold get at 1.
  destruct (setup_tab_controller s); [|reflexivity].
  unfold bind at 1. unfold get_mouse. unfold bind at 1. unfold get at 1.
  destruct (mouse s) as [m|].
  2:{ unfold raise. rewrite log_event_eq. reflexivity. }
  unfold ret at 1. destruct (drawing m); [|reflexivity].
  unfold bind at 1.
  destruct (current_rect m) as [item|].
  - destruct (truthy (Some item)).
    + unfold ui at 1. destruct (ui_raises (CanvasDelete item)).
      * unfold raise. rewrite log_event_eq. reflexivity.
      * unfold ret at 1. unfold bind at 1. unfold ui.
        destruct (ui_raises _).
        -- unfold raise. rewrite log_event_eq. reflexivity.
        -- reflexivity.
    + unfold ret at 1. unfold bind at 1. unfold ui.
      destruct (ui_raises _).
      * unfold raise. rewrite log_event_eq. reflexivity.
      * reflexivity.
  - unfold ret at 1. unfold bind at 1. unfold ui.
    destruct (ui_raises _).
    + unfold raise. rewrite log_event_eq. reflexivity.
    + reflexivity.
Qed.

Lemma after_events_app handle l1 l2 s :
  after_events handle (l1 ++ l2) s =
  after_events handle l2 (after_events handle l1 s).
Proof.
  revert s. induction l1 as [|ev l1 IH]; intros s; cbn [after_events app];
    [reflexivity|apply IH].
Qed.

(** While the button is held and the toolkit works, motion only replaces the
    rubber band. *)
Lemma motions_keep_start (moves : list (Z * Z)) :
  (forall c, ui_raises c = None) ->
  forall s a b cr,
    setup_tab_controller s = true ->
    mouse s = Some (mkMouse true a b cr) ->
    let s' := after_events (dispatch clock_log ui_raises rectangle_id)
                (map (fun p => Motion (fst p) (snd p)) moves) s in
    setup_tab_controller s' = true /\ posList s' = posList s /\
    exists cr', mouse s' = Some (mkMouse true a b cr').
Proof.
  intros Hui. induction moves as [|[x y] rest IH]; intros s a b cr Hs Hm;
    cbn [map after_events fst snd].
  - split; [exact Hs|]. split; [reflexivity|]. now exists cr.
  - cbn [dispatch].
    assert (E : on_mouse_move clock_log ui_raises rectangle_id x y s =
                Ok tt (set_mouse
                         (Some (mkMouse true a b
                                  (Some (rectangle_id a b x y)))) s)).
    { unfold on_mouse_move, try_except.
      cbv beta iota delta [bind get get_mouse modify ret raise ui].
      rewrite Hs, Hm. cbn [drawing current_rect start_x start_y].
      destruct cr as [item|]; [destruct (truthy (Some item))|];
        rewrite ?Hui; reflexivity. }
    rewrite E.
    destruct (IH (set_mouse (Some (mkMouse true a b
                                     (Some (rectangle_id a b x y)))) s)
                 a b (Some (rectangle_id a b x y)) Hs eq_refl)
      as (Hs' & Hp' & cr' & Hm').
    split; [exact Hs'|]. split; [exact Hp'|]. now exists cr'.
Qed.

(** Releasing the button while a drag is in progress, when removing the
    rubber band does not fail. *)
Lemma on_mouse_up_release x y s a b cr :
  setup_tab_controller s = true ->
  mouse s = Some (mkMouse true a b cr) ->
  (truthy cr = false \/ forall c, ui_raises c = None) ->
  posList (state_of (on_mouse_up clock_log ui_raises x y s)) =
  (if (Z.abs (x - a) >? 20) && (Z.abs (y - b) >? 20)
   then posList s ++ [(Z.min a x, Z.min b y, Z.abs (x - a), Z.abs (y - b))]
   else posList s).
Proof.
  intros Hs Hm Hdel.
  unfold on_mouse_up. rewrite try_log_posList.
  cbv beta iota delta [bind get get_mouse modify ret raise ui].
  rewrite Hs, Hm. cbn [drawing current_rect start_x start_y].
  replace (Z.max a x - Z.min a x) with (Z.abs (x - a)) by lia.
  replace (Z.max b y - Z.min b y) with (Z.abs (y - b)) by lia.
  assert (Hgone :
    forall st,
      match cr with
      | Some item =>
          if truthy cr
          then match ui_raises (CanvasDelete item) with
               | Some msg => fun s0 : App => Raised (mkError OtherError msg) s0
               | None => fun s0 : App => Ok tt s0
               end
          else fun s0 : App => Ok tt s0
      | None => fun s0 : App => Ok tt s0
      end st = Ok tt st).
  { intros st. destruct cr as [item|]; [|reflexivity].
    destruct Hdel as [->|Hui]; [reflexivity|].
    rewrite Hui. now destruct (truthy (Some item)). }
  rewrite Hgone.
  destruct ((Z.abs (x - a) >? 20) && (Z.abs (y - b) >? 20)); [|reflexivity].
  match goal with
  | |- context [ui_raises ?c] => destruct (ui_raises c)
  end; rewrite ?log_event_eq; reflexivity.
Qed.

(** Drawing a region with the mouse: press at one point, move through any
    points, release at another.  The region appended is the rectangle spanned
    by the press and release points, top-left corner first, whichever way the
    mouse was dragged and whatever it passed through, and it is appended only
    if it is more than 20 wide and more than 20 high.  This holds when the
    toolkit works, and, for a press followed at once by a release, also when
    every toolkit call fails. *)
Theorem mouse_drag_adds_region x0 y0 x1 y1 (moves : list (Z * Z)) s :
  setup_tab_controller s = true ->
  (moves = [] \/ forall c, ui_raises c = None) ->
  let drag px py rx ry :=
    after_events (dispatch clock_log ui_raises rectangle_id)
      (ButtonPress px py :: map (fun p => Motion (fst p) (snd p)) moves ++
       [ButtonRelease rx ry]) s in
  posList (drag x0 y0 x1 y1) =
    (if (Z.abs (x1 - x0) >? 20) && (Z.abs (y1 - y0) >? 20)
     then posList s ++ [(Z.min x0 x1, Z.min y0 y1,
                         Z.abs (x1 - x0), Z.abs (y1 - y0))]
     else posList s)
  /\ posList (drag x1 y1 x0 y0) = posList (drag x0 y0 x1 y1).
Proof.
  intros Hs Hmoves drag.
  assert (Hdrag : forall px py rx ry,
            posList (drag px py rx ry) =
            (if (Z.abs (rx - px) >? 20) && (Z.abs (ry - py) >? 20)
             then posList s ++ [(Z.min px rx, Z.min py ry,
                                 Z.abs (rx - px), Z.abs (ry - py))]
             else posList s)).
  { intros px py rx ry. subst drag. cbv beta.
    cbn [after_events dispatch]. rewrite on_mouse_down_spec, Hs.
    set (s1 := set_mouse (Some (mkMouse true px py None)) s).
    rewrite after_events_app. cbn [after_events dispatch].
    change (match on_mouse_up clock_log ui_raises rx ry ?st with
            | Ok _ s' => s'
            | Raised _ s' => s'
            end)
      with (state_of (on_mouse_up clock_log ui_raises rx ry st)).
    destruct Hmoves as [->|Hui].
    - cbn [map after_events].
      apply (on_mouse_up_release rx ry s1 px py None Hs eq_refl).
      now left.
    - destruct (motions_keep_start moves Hui s1 px py None Hs eq_refl)
        as (Hs' & Hp' & cr' & Hm').
      rewrite (on_mouse_up_release rx ry _ px py cr' Hs' Hm' (or_intror Hui)).
      now rewrite Hp'. }
  split; [apply Hdrag|].
  rewrite !Hdrag.
  replace (Z.abs (x0 - x1)) with (Z.abs (x1 - x0)) by lia.
  replace (Z.abs (y0 - y1)) with (Z.abs (y1 - y0)) by lia.
  now rewrite (Z.min_comm x1 x0), (Z.min_comm y1 y0).
Qed.

(** Whatever sequence of presses, drags and releases arrives, and whatever
    the toolkit does, the left mouse button only ever appends regions more
    than 20 wide and more than 20 high: if every region of the list has that
    size before, every region has it after, and the regions that were there
    stay in front, in order. *)
Theorem mouse_events_keep_drawn_size events : forall s,
  Forall drawn_size (posList s) ->
  Forall drawn_size
         (posList (after_events (dispatch clock_log ui_raises rectangle_id)
                     events s))
  /\ exists added,
       posList (after_events (dispatch clock_log ui_raises rectangle_id)
                  events s) = posList s ++ added.
Proof.
  induction events as [|ev rest IH]; intros s Hall; cbn [after_events].
  - split; [exact Hall|]. exists []. now rewrite app_nil_r.
  - set (s1 := match dispatch clock_log ui_raises rectangle_id ev s with
               | Ok _ s' => s'
               | Raised _ s' => s'
               end).
    assert (Hstep : posList s1 = posList s \/
                    exists r, drawn_size r /\ posList s1 = posList s ++ [r]).
    { subst s1. destruct ev as [x y|x y|x y]; cbn [dispatch].
      - left. rewrite on_mouse_down_spec.
        now destruct (setup_tab_controller s).
      - left. apply on_mouse_move_posList.
      - destruct (on_mouse_up_posList x y s)
          as [E|(m & _ & _ & Hw & Hh & E)]; [left; exact E|right].
        eexists. split; [|exact E]. cbn. lia. }
    assert (Hall1 : Forall drawn_size (posList s1)).
    { destruct Hstep as [->|(r & Hr & ->)]; [exact Hall|].
      apply Forall_app. split; [exact Hall|]. now constructor. }
    destruct (IH s1 Hall1) as (Hfin & added & Hadd).
    split; [exact Hfin|]. rewrite Hadd.
    destruct Hstep as [->|(r & _ & ->)]; [now exists added|].
    exists (r :: added). now rewrite <- app_assoc.
Qed.

Lemma characters_length str : length (characters str) = String.length str.
Proof. induction str as [|c rest IH]; cbn; [reflexivity|now rewrite IH]. Qed.

Lemma characters_nth str : forall i,
  nth_error (characters str) i =
  option_map (fun c => String c EmptyString) (String.get i str).
Proof.
  induction str as [|c rest IH]; intros [|i]; cbn; try reflexivity.
  apply IH.
Qed.

(** A loop that only logs: one entry per element, stamped with successive
    clock readings. *)
Lemma for_each_log messages : forall s,
  exists entries,
    for_each messages (log_event clock_log) s = Ok tt (logged entries s) /\
    length entries = length messages /\
    forall i e, nth_error entries i = Some e ->
      exists m, nth_error messages i = Some m /\
                e = log_entry (clock_log (ticks s + i)) m.
Proof.
  induction messages as [|m rest IH]; intros s; cbn [for_each].
  - exists []. rewrite logged_nil. split; [reflexivity|].
    split; [reflexivity|]. intros [|i] e; discriminate.
  - unfold bind. rewrite log_event_eq.
    destruct (IH (logged [log_entry (clock_log (ticks s)) m] s))
      as (entries & E & Hlen & Hnth).
    exists (log_entry (clock_log (ticks s)) m :: entries).
    rewrite E, logged_logged. split; [reflexivity|].
    split; [cbn; now rewrite Hlen|].
    intros [|i] e He; cbn in He.
    + injection He as <-. exists m. split; [reflexivity|].
      now rewrite Nat.add_0_r.
    + destruct (Hnth i e He) as (m' & Hm & ->). exists m'.
      split; [exact Hm|]. f_equal. f_equal.
      unfold logged, set_ticks, set_log_data. cbn. lia.
Qed.

(** [diagnose_gpu] of the application logs the report one character at a
    time: the helper returns its lines joined into one string, and the loop
    runs over that string.  The log grows by as many entries as the report
    has characters (line breaks included), the i-th of them holding the i-th
    character alone. *)
Theorem diagnose_gpu_logs_each_character lines s :
  exists entries,
    app_diagnose_gpu clock_log lines s = Ok tt (logged entries s) /\
    length entries = String.length (String.concat newline lines) /\
    forall i e, nth_error entries i = Some e ->
      exists c, String.get i (String.concat newline lines) = Some c /\
                e = log_entry (clock_log (ticks s + i)) (String c EmptyString).
Proof.
  unfold app_diagnose_gpu, diagnose_gpu.
  destruct (for_each_log (characters (String.concat newline lines)) s)
    as (entries & E & Hlen & Hnth).
  exists entries. split; [exact E|].
  split; [now rewrite Hlen, characters_length|].
  intros i e He. destruct (Hnth i e He) as (m & Hm & ->).
  rewrite characters_nth in Hm.
  destruct (String.get i _) as [c|]; [|discriminate].
  injection Hm as <-. now exists c.
Qed.


End OrchestratorFacts.

Section OrchestratorExamples.
Import Orchestrator.

Lemma save_then_load_round_trip_witness :
  let s := sample_app [(50, 90, 107, 48)] "carParkImg.png" sample_disk in
  let s1 := state_of (app_save_parking_spaces posix_join file_root tick_stamp
                        no_partial_file s) in
  posList (state_of (app_load_parking_positions posix_join file_root
                       tick_stamp None (set_posList [] s1))) =
  [(50, 90, 107, 48)].
Proof.
  intros s s1.
  destruct (save_then_load_round_trip posix_join file_root tick_stamp
              no_partial_file s s1) as (_ & _ & H);
    [reflexivity|reflexivity|].
  destruct (H (set_posList [] s1) eq_refl eq_refl eq_refl)
    as (s3 & E & Hp & _).
  eapply eq_trans; [exact (f_equal (fun o => posList (state_of o)) E)|].
  exact Hp.
Defined.

Lemma right_click_removes_first_hit_witness :
  let s := sample_app [(0, 0, 30, 30); (100, 100, 30, 30)] EmptyString
                      sample_disk in
  posList (state_of (on_right_click posix_join file_root tick_stamp toolkit_ok
                       110 110 s)) = [(0, 0, 30, 30)].
Proof.
  intros s.
  destruct (right_click_removes_first_hit posix_join file_root tick_stamp
              toolkit_ok 110 110 s) as (_ & H); [reflexivity|].
  specialize (H eq_refl).
  change (first_hit 110 110 (posList s)) with (Some 1%nat) in H.
  destruct H as (s' & r & E & Hp & _).
  eapply eq_trans; [exact (f_equal (fun o => posList (state_of o)) E)|].
  exact Hp.
Defined.

Lemma deleting_reloads_from_disk_witness :
  let s := sample_app [(0, 0, 30, 30); (100, 100, 30, 30)] "carParkImg.png"
                      stored_disk in
  posList (state_of (on_right_click posix_join file_root tick_stamp toolkit_ok
                       10 10 s)) = [(5, 5, 40, 40)]
  /\ posList (state_of (clear_all_spaces posix_join file_root tick_stamp
                          toolkit_ok s)) = [(5, 5, 40, 40)].
Proof.
  intros s.
  destruct (deleting_reloads_from_disk posix_join file_root tick_stamp
              toolkit_ok 10 10 s) as (Hclick & s2 & E2 & Hp2);
    [reflexivity|reflexivity|].
  destruct Hclick as (s1 & E1 & Hp1); [discriminate|].
  split.
  - eapply eq_trans; [exact (f_equal (fun o => posList (state_of o)) E1)|].
    exact Hp1.
  - eapply eq_trans; [exact (f_equal (fun o => posList (state_of o)) E2)|].
    exact Hp2.
Defined.

Lemma saved_layout_survives_deleting_witness :
  let s := sample_app [(0, 0, 30, 30)] "carParkImg.png" sample_disk in
  let s1 := state_of (app_save_parking_spaces posix_join file_root tick_stamp
                        no_partial_file s) in
  posList (state_of (on_right_click posix_join file_root tick_stamp toolkit_ok
                       10 10 s1)) = [(0, 0, 30, 30)].
Proof.
  intros s s1.
  destruct (saved_layout_survives_deleting posix_join file_root tick_stamp
              no_partial_file toolkit_ok 10 10 s s1)
    as ((s2 & E & Hp) & _);
    [reflexivity|reflexivity|reflexivity|reflexivity|discriminate|].
  eapply eq_trans; [exact (f_equal (fun o => posList (state_of o)) E)|].
  exact Hp.
Defined.

Lemma mouse_drag_adds_region_witness :
  let s := sample_app [] "carParkImg.png" sample_disk in
  posList (after_events (dispatch tick_stamp toolkit_ok next_item)
             [ButtonPress 200 150; Motion 180 90; Motion 120 110;
              ButtonRelease 100 100] s) =
  [(100, 100, 100, 50)].
Proof.
  intros s.
  destruct (mouse_drag_adds_region tick_stamp toolkit_ok next_item
              200 150 100 100 [(180, 90); (120, 110)] s)
    as (H & _); [reflexivity|right; intros c; reflexivity|].
  exact H.
Defined.

Lemma mouse_events_keep_drawn_size_witness :
  let s := sample_app [(0, 0, 30, 30)] "carParkImg.png" sample_disk in
  Forall drawn_size
    (posList (after_events (dispatch tick_stamp toolkit_ok next_item)
                [ButtonPress 0 0; Motion 50 50; ButtonRelease 50 50;
                 ButtonPress 0 0; ButtonRelease 5 5] s)).
Proof.
  intros s.
  apply (mouse_events_keep_drawn_size tick_stamp toolkit_ok next_item).
  constructor; [cbn; lia|constructor].
Defined.


End OrchestratorExamples.
